(** * storymap-pwa: the service worker [sw.js]

    A shallow embedding of the worker's event handlers (install, activate,
    fetch, push, sync) over explicit models of the platform objects they
    talk to: the cache storage, the network, the push payload and the
    favorites object store.  Definitions come first, theorems after. *)

From Stdlib Require Import ZArith String Ascii List Bool Lia DecimalString.
From stdpp Require Import base option gmap strings list fin_maps sorting.
Import ListNotations.

Set Warnings "-register-all".
Local Open Scope string_scope.
Local Open Scope Z_scope.

(* ===================================================================== *)
(** ** JavaScript values and JSON *)
(* ===================================================================== *)

Module Json.

(** The values the worker handles.  A number is kept as a decimal
    [mantissa * 10 ^ exponent]; rounding to a double is not modelled. *)
Inductive JsValue : Type :=
| JUndefined
| JNull
| JBool (b : bool)
| JNum (mantissa exponent : Z)
| JStr (s : string)
| JArr (items : list JsValue)
| JObj (fields : list (string * JsValue)).

(** [ToBoolean]: what [v || d] and [if (v)] test. *)
Definition truthy (v : JsValue) : bool :=
  match v with
  | JUndefined | JNull => false
  | JBool b => b
  | JNum m _ => negb (m =? 0)
  | JStr s => negb (String.eqb s EmptyString)
  | JArr _ | JObj _ => true
  end.

(** [a || b] *)
Definition js_or (a b : JsValue) : JsValue := if truthy a then a else b.

(** Own property of a parsed object; [JSON.parse] lets a later duplicate
    key overwrite an earlier one, so the last binding is the one read. *)
Fixpoint field (k : string) (fs : list (string * JsValue)) : JsValue :=
  match fs with
  | [] => JUndefined
  | (k', v) :: rest =>
      match field k rest with
      | JUndefined => if String.eqb k k' then v else JUndefined
      | later => later
      end
  end.

(** [v.k] for the property names the worker reads ([title], [body],
    [message], [icon], [image], [tag], [data]): none of them is a built-in
    property of a string, number, boolean or array, so only an object can
    answer.  Reading a property of [null] or [undefined] throws a
    [TypeError], rendered as [None]. *)
Definition prop (v : JsValue) (k : string) : option JsValue :=
  match v with
  | JUndefined | JNull => None
  | JObj fs => Some (field k fs)
  | _ => Some JUndefined
  end.

(** *** Lexical helpers *)

Definition code (c : ascii) : Z := Z.of_N (N_of_ascii c).
Definition chr (n : Z) : ascii := ascii_of_N (Z.to_N n).

Definition is_ws (c : ascii) : bool :=
  let n := code c in (n =? 32) || (n =? 9) || (n =? 10) || (n =? 13).

Definition is_digit (c : ascii) : bool :=
  let n := code c in (48 <=? n) && (n <=? 57).

Definition hex_val (c : ascii) : option Z :=
  let n := code c in
  if (48 <=? n) && (n <=? 57) then Some (n - 48)
  else if (65 <=? n) && (n <=? 70) then Some (n - 55)
  else if (97 <=? n) && (n <=? 102) then Some (n - 87)
  else None.

Fixpoint skip_ws (s : string) : string :=
  match s with
  | String c r => if is_ws c then skip_ws r else s
  | EmptyString => s
  end.

(** Strings are byte strings; a [\uXXXX] escape is stored as the UTF-8
    bytes of its code unit. *)
Definition utf8 (u : Z) : string :=
  if u <? 128 then String (chr u) EmptyString
  else if u <? 2048 then
    String (chr (192 + u / 64)) (String (chr (128 + u mod 64)) EmptyString)
  else
    String (chr (224 + u / 4096))
      (String (chr (128 + (u / 64) mod 64)) (String (chr (128 + u mod 64)) EmptyString)).

Definition unescape (e : ascii) : option ascii :=
  let n := code e in
  if n =? 34 then Some (chr 34)          (* quote *)
  else if n =? 92 then Some (chr 92)     (* backslash *)
  else if n =? 47 then Some (chr 47)     (* slash *)
  else if n =? 98 then Some (chr 8)      (* b *)
  else if n =? 102 then Some (chr 12)    (* f *)
  else if n =? 110 then Some (chr 10)    (* n *)
  else if n =? 114 then Some (chr 13)    (* r *)
  else if n =? 116 then Some (chr 9)     (* t *)
  else None.

(** The characters of a string literal, after its opening quote. *)
Fixpoint parse_chars (s : string) : option (string * string) :=
  match s with
  | EmptyString => None
  | String c r =>
      if code c =? 34 then Some (EmptyString, r)
      else if code c =? 92 then
        match r with
        | String e r1 =>
            if code e =? 117 then
              match r1 with
              | String h1 (String h2 (String h3 (String h4 r2))) =>
                  a ← hex_val h1; b ← hex_val h2;
                  c' ← hex_val h3; d ← hex_val h4;
                  '(str, rest) ← parse_chars r2;
                  Some (utf8 (((a * 16 + b) * 16 + c') * 16 + d) ++ str, rest)
              | _ => None
              end
            else
              x ← unescape e;
              '(str, rest) ← parse_chars r1;
              Some (String x str, rest)
        | EmptyString => None
        end
      else if code c <? 32 then None
      else
        '(str, rest) ← parse_chars r;
        Some (String c str, rest)
  end.

(** A run of digits: accumulated value, number of digits read, rest. *)
Fixpoint digits (acc : Z) (n : Z) (s : string) : Z * Z * string :=
  match s with
  | String c r =>
      if is_digit c then digits (acc * 10 + (code c - 48)) (n + 1) r
      else (acc, n, s)
  | EmptyString => (acc, n, s)
  end.

Definition starts_with_digit (s : string) : bool :=
  match s with String c _ => is_digit c | EmptyString => false end.

(** [-? int frac? exp?] with no leading zero in [int]. *)
Definition parse_number (s : string) : option (JsValue * string) :=
  let '(neg, s1) :=
    match s with
    | String c r => if code c =? 45 then (true, r) else (false, s)
    | EmptyString => (false, s)
    end in
  match s1 with
  | String c r =>
      if negb (is_digit c) then None
      else
        let '(ip, _, s2) :=
          if code c =? 48 then (0, 1, r) else digits 0 0 s1 in
        '(m, fl, s3) ←
          match s2 with
          | String p r2 =>
              if code p =? 46 then
                if starts_with_digit r2 then Some (digits ip 0 r2) else None
              else Some (ip, 0, s2)
          | EmptyString => Some (ip, 0, s2)
          end;
        '(ex, s4) ←
          match s3 with
          | String e r3 =>
              if (code e =? 101) || (code e =? 69) then
                let '(eneg, r4) :=
                  match r3 with
                  | String sg r5 =>
                      if code sg =? 45 then (true, r5)
                      else if code sg =? 43 then (false, r5)
                      else (false, r3)
                  | EmptyString => (false, r3)
                  end in
                if starts_with_digit r4 then
                  let '(v, _, rest) := digits 0 0 r4 in
                  Some (if eneg then - v else v, rest)
                else None
              else Some (0, s3)
          | EmptyString => Some (0, s3)
          end;
        Some (JNum (if neg then - m else m) (ex - fl), s4)
  | EmptyString => None
  end.

Definition strip_prefix (p s : string) : option string :=
  if String.prefix p s
  then Some (String.substring (String.length p)
               (String.length s - String.length p) s)
  else None.

(** *** The value grammar, by recursive descent on a step budget *)

Fixpoint parse_value (fuel : nat) (s : string) : option (JsValue * string) :=
  match fuel with
  | O => None
  | S f =>
      let s := skip_ws s in
      match s with
      | EmptyString => None
      | String c r =>
          if code c =? 123 then           (* object *)
            match skip_ws r with
            | String c1 r1 =>
                if code c1 =? 125 then Some (JObj [], r1)
                else '(fs, rest) ← parse_members f (skip_ws r); Some (JObj fs, rest)
            | EmptyString => None
            end
          else if code c =? 91 then       (* array *)
            match skip_ws r with
            | String c1 r1 =>
                if code c1 =? 93 then Some (JArr [], r1)
                else '(vs, rest) ← parse_elements f r; Some (JArr vs, rest)
            | EmptyString => None
            end
          else if code c =? 34 then       (* string *)
            '(str, rest) ← parse_chars r; Some (JStr str, rest)
          else if code c =? 116 then
            rest ← strip_prefix "true" s; Some (JBool true, rest)
          else if code c =? 102 then
            rest ← strip_prefix "false" s; Some (JBool false, rest)
          else if code c =? 110 then
            rest ← strip_prefix "null" s; Some (JNull, rest)
          else parse_number s
      end
  end

with parse_elements (fuel : nat) (s : string)
  : option (list JsValue * string) :=
  match fuel with
  | O => None
  | S f =>
      '(v, r) ← parse_value f s;
      match skip_ws r with
      | String c r1 =>
          if code c =? 44 then
            '(vs, rest) ← parse_elements f r1; Some (v :: vs, rest)
          else if code c =? 93 then Some ([v], r1)
          else None
      | EmptyString => None
      end
  end

with parse_members (fuel : nat) (s : string)
  : option (list (string * JsValue) * string) :=
  match fuel with
  | O => None
  | S f =>
      match s with
      | String q r =>
          if code q =? 34 then
            '(k, r1) ← parse_chars r;
            match skip_ws r1 with
            | String col r2 =>
                if code col =? 58 then
                  '(v, r3) ← parse_value f r2;
                  match skip_ws r3 with
                  | String c r4 =>
                      if code c =? 44 then
                        '(fs, rest) ← parse_members f (skip_ws r4);
                        Some ((k, v) :: fs, rest)
                      else if code c =? 125 then Some ([(k, v)], r4)
                      else None
                  | EmptyString => None
                  end
                else None
            | EmptyString => None
            end
          else None
      | EmptyString => None
      end
  end.

(** [JSON.parse]: one value, surrounded by white space only; [None] is a
    thrown [SyntaxError].  Every recursive call follows at least one
    consumed character or one other call, so twice the length is budget
    enough. *)
Definition JSON_parse (s : string) : option JsValue :=
  '(v, rest) ← parse_value (2 * String.length s + 4) s;
  match skip_ws rest with
  | EmptyString => Some v
  | _ => None
  end.

(** *** [JSON.stringify] *)

Definition hex_digit (n : Z) : ascii :=
  if n <? 10 then chr (48 + n) else chr (87 + n).

Definition escape_char (c : ascii) : string :=
  let n := code c in
  if n =? 34 then String (chr 92) (String (chr 34) EmptyString)
  else if n =? 92 then "\\"
  else if n =? 8 then "\b"
  else if n =? 12 then "\f"
  else if n =? 10 then "\n"
  else if n =? 13 then "\r"
  else if n =? 9 then "\t"
  else if n <? 32 then
    "\u00" ++ String (hex_digit (n / 16)) (String (hex_digit (n mod 16)) EmptyString)
  else String c EmptyString.

Fixpoint escape (s : string) : string :=
  match s with
  | EmptyString => EmptyString
  | String c r => escape_char c ++ escape r
  end.

Definition quote (s : string) : string :=
  String (chr 34) (escape s ++ String (chr 34) EmptyString).

Definition decimal (z : Z) : string := NilZero.string_of_int (Z.to_int z).

(** An integer prints in plain decimal, as the platform prints it up to
    [10 ^ 21]; other numbers print in a mantissa-exponent form that reads
    back as the same number. *)
Definition number_text (m e : Z) : string :=
  if 0 <=? e then decimal (m * 10 ^ e) else decimal m ++ "e" ++ decimal e.

Definition join (sep : string) (l : list string) : string :=
  match l with
  | [] => EmptyString
  | x :: xs => fold_left (fun acc y => acc ++ sep ++ y) xs x
  end.

(** Serialisation of a defined value: inside an array [undefined] prints
    as [null], inside an object a field holding it is left out. *)
Fixpoint serialize (v : JsValue) : string :=
  match v with
  | JUndefined | JNull => "null"
  | JBool true => "true"
  | JBool false => "false"
  | JNum m e => number_text m e
  | JStr s => quote s
  | JArr vs => "[" ++ join "," (List.map serialize vs) ++ "]"
  | JObj fs =>
      let member :=
        fix member (fs : list (string * JsValue)) : list string :=
          match fs with
          | [] => []
          | (k, JUndefined) :: rest => member rest
          | (k, x) :: rest => (quote k ++ ":" ++ serialize x) :: member rest
          end in
      "{" ++ join "," (member fs) ++ "}"
  end.

(** [JSON.stringify(v)]; [undefined] at top level has no text. *)
Definition JSON_stringify (v : JsValue) : option string :=
  match v with
  | JUndefined => None
  | _ => Some (serialize v)
  end.

(** JSON text is written here with apostrophes where it has double
    quotes; [dq] puts the double quotes back. *)
Fixpoint dq (s : string) : string :=
  match s with
  | EmptyString => EmptyString
  | String c r => String (if code c =? 39 then chr 34 else c) (dq r)
  end.

End Json.

(* ===================================================================== *)
(** ** Requests, responses and the cache storage *)
(* ===================================================================== *)

Module Http.

(** [Request]: the two attributes the worker reads. *)
Record Request : Type := mkRequest {
  method : string;
  url : string
}.

(** [Response.type] *)
Inductive ResponseType : Type :=
| Basic | Cors | Default | Error | Opaque | OpaqueRedirect.

Definition type_name (t : ResponseType) : string :=
  match t with
  | Basic => "basic"
  | Cors => "cors"
  | Default => "default"
  | Error => "error"
  | Opaque => "opaque"
  | OpaqueRedirect => "opaqueredirect"
  end.

Record Response : Type := mkResponse {
  status : Z;
  type : ResponseType;
  headers : list (string * string);
  body : string
}.

(** [response.clone()]: a second response with the same status, type,
    headers and bytes. *)
Definition clone (r : Response) : Response := r.

(** [response.ok] *)
Definition ok (r : Response) : bool := (200 <=? status r) && (status r <=? 299).

(** The [init] dictionary of [new Response(body, init)]. *)
Record ResponseInit : Type := mkInit {
  init_status : option Z;
  init_headers : list (string * string)
}.

(** [new Response(body, init)]: the status defaults to 200 and the type
    of a constructed response is [default]; an absent body is empty. *)
Definition new_Response (b : option string) (init : ResponseInit) : Response :=
  {| status := default 200 (init_status init);
     type := Default;
     headers := init_headers init;
     body := default EmptyString b |}.

(** [new URL(u).origin] for a serialised absolute URL
    [scheme://host[:port]/...]: everything before the path; ["null"] when
    the URL has no authority part. *)
Fixpoint authority_end (s : string) : nat :=
  match s with
  | String c r =>
      if (Json.code c =? 47) || (Json.code c =? 63) || (Json.code c =? 35)
      then O else S (authority_end r)
  | EmptyString => O
  end.

Fixpoint scheme_end (s : string) : option nat :=
  match s with
  | EmptyString => None
  | String _ r =>
      if String.prefix "://" s then Some O else S <$> scheme_end r
  end.

Definition origin (u : string) : string :=
  match scheme_end u with
  | Some n =>
      let rest := String.substring (n + 3) (String.length u - (n + 3)) u in
      String.substring 0 (n + 3 + authority_end rest) u
  | None => "null"
  end.

End Http.

Module CacheStorage.
Import Http.

(** A cache: its request/response pairs in insertion order, keyed by the
    request URL (every request the worker stores or looks up is a GET). *)
Definition Cache : Type := list (string * Response).

(** The origin's cache storage: the named caches in creation order. *)
Definition Caches : Type := list (string * Cache).

(** [cache.match(request)] *)
Fixpoint cache_match (c : Cache) (req : Request) : option Response :=
  match c with
  | [] => None
  | (k, r) :: rest => if String.eqb k (url req) then Some r else cache_match rest req
  end.

(** The write of a pair: the entries of the key are replaced by the new
    pair. *)
Definition put_entry (c : Cache) (req : Request) (r : Response) : Cache :=
  (List.filter (fun e => negb (String.eqb (fst e) (url req))) c
     ++ [(url req, r)])%list.

(** [cache.put(request, response)]: a response with status 206 (partial
    content) is refused with a [TypeError], [None] here; any other response
    is written. *)
Definition cache_put (c : Cache) (req : Request) (r : Response) : option Cache :=
  if status r =? 206 then None else Some (put_entry c req r).

(** [caches.keys()] *)
Definition keys (cs : Caches) : list string := List.map fst cs.

(** [caches.has(name)] *)
Definition has (cs : Caches) (name : string) : bool :=
  List.existsb (String.eqb name) (keys cs).

(** [caches.open(name)]: the cache of that name, created empty (and
    last) when there is none. *)
Definition open (cs : Caches) (name : string) : Caches :=
  if has cs name then cs else (cs ++ [(name, [])])%list.

(** The entries of the cache called [name]; none when it does not exist. *)
Fixpoint entries (cs : Caches) (name : string) : Cache :=
  match cs with
  | [] => []
  | (n, c) :: rest => if String.eqb n name then c else entries rest name
  end.

(** Run [f] on the cache called [name]. *)
Fixpoint update (cs : Caches) (name : string) (f : Cache -> Cache) : Caches :=
  match cs with
  | [] => []
  | (n, c) :: rest =>
      if String.eqb n name then (n, f c) :: rest
      else (n, c) :: update rest name f
  end.

(** [caches.open(name).then(cache => cache.put(request, response))], with
    nobody waiting for the result: when the put is refused the cache stays
    as it is, opened all the same. *)
Definition open_put (cs : Caches) (name : string) (req : Request) (r : Response)
  : Caches :=
  update (open cs name) name (fun c => default c (cache_put c req r)).

(** [caches.match(request)]: the first hit, asking the caches in creation
    order. *)
Fixpoint caches_match (cs : Caches) (req : Request) : option Response :=
  match cs with
  | [] => None
  | (_, c) :: rest =>
      match cache_match c req with
      | Some r => Some r
      | None => caches_match rest req
      end
  end.

(** [caches.delete(name)] *)
Definition delete (cs : Caches) (name : string) : Caches :=
  List.filter (fun e => negb (String.eqb (fst e) name)) cs.

End CacheStorage.

(* ===================================================================== *)
(** ** The worker *)
(* ===================================================================== *)

Module Worker.
Import Json Http CacheStorage.

Definition CACHE_NAME : string := "storymap-v1".
Definition STATIC_CACHE : string := "storymap-static-v1".
Definition DYNAMIC_CACHE : string := "storymap-dynamic-v1".

(** Assets to cache for the app shell. *)
Definition STATIC_ASSETS : list string :=
  ["/"; "/index.html"; "/style.css"; "/main.js"; "/favicon.png"].

(** The origin the fetch handler compares against. *)
Definition API_ORIGIN : string := "https://story-api.dicoding.dev".

(** How a promise settles. *)
Inductive Settled (A : Type) : Type :=
| Resolved (a : A)
| Rejected.
Arguments Resolved {A} a.
Arguments Rejected {A}.

(** [fetch(request)]: the response the network gives, or [None] when the
    fetch rejects. *)
Definition Network : Type := Request -> option Response.

(** *** install *)

(** A listed path, resolved against the worker's own origin. *)
Definition asset_request (location_origin path : string) : Request :=
  {| method := "GET"; url := location_origin ++ path |}.

(** The fetches of [cache.addAll]: every request must be answered, and
    answered with an [ok] status other than 206, or the whole call rejects
    before anything is written. *)
Fixpoint fetch_all (net : Network) (reqs : list Request)
  : option (list (Request * Response)) :=
  match reqs with
  | [] => Some []
  | req :: rest =>
      r ← net req;
      if ok r && negb (status r =? 206)
      then (fun tl => (req, r) :: tl) <$> fetch_all net rest
      else None
  end.

(** Whether the cache can take a pair: a write fails when, for one, the
    quota of the origin is used up. *)
Definition Storable : Type := Request -> Response -> bool.

(** A request is served when the network answers it with an [ok] status
    other than 206 and the cache can take the answer. *)
Definition served (net : Network) (storable : Storable) (req : Request) : Prop :=
  exists r, net req = Some r /\ ok r = true /\ status r <> 206
            /\ storable req r = true.

Definition put_all (cs : Caches) (name : string)
    (pairs : list (Request * Response)) : Caches :=
  fold_left (fun acc p => update acc name (fun c => put_entry c (fst p) (snd p)))
    pairs cs.

(** The writes of [cache.addAll], one pair after the other: they stop at
    the first pair the cache cannot take.  The result tells whether all
    were written, with the cache storage as the writes left it. *)
Fixpoint batch_put (storable : Storable) (cs : Caches) (name : string)
    (pairs : list (Request * Response)) : bool * Caches :=
  match pairs with
  | [] => (true, cs)
  | p :: rest =>
      if storable (fst p) (snd p)
      then batch_put storable
             (update cs name (fun c => put_entry c (fst p) (snd p))) name rest
      else (false, cs)
  end.

(** [cache.addAll(urls)] on the cache called [name]: fetch every URL, then
    write the pairs as one batch; when a write fails, the cache is set back
    to the copy taken before the batch and the call rejects. *)
Definition addAll (net : Network) (storable : Storable) (location_origin : string)
    (cs : Caches) (name : string) (urls : list string) : Settled unit * Caches :=
  match fetch_all net (List.map (asset_request location_origin) urls) with
  | Some pairs =>
      let backup := entries cs name in
      let '(written, cs') := batch_put storable cs name pairs in
      if written then (Resolved tt, cs')
      else (Rejected, update cs' name (fun _ => backup))
  | None => (Rejected, cs)
  end.

Record InstallResult : Type := {
  install_promise : Settled unit;     (* what [event.waitUntil] receives *)
  install_caches : Caches;
  skipWaiting : bool
}.

Definition on_install (net : Network) (storable : Storable)
    (location_origin : string) (cs : Caches) : InstallResult :=
  let opened := open cs STATIC_CACHE in
  let '(p, cs') :=
    addAll net storable location_origin opened STATIC_CACHE STATIC_ASSETS in
  {| install_promise := p; install_caches := cs'; skipWaiting := true |}.

(** *** activate *)

(** The filter of the activate handler. *)
Definition is_old (cacheName : string) : bool :=
  negb (String.eqb cacheName STATIC_CACHE)
  && negb (String.eqb cacheName DYNAMIC_CACHE).

(** [caches.keys()], the filter, and one [caches.delete] per name left. *)
Definition on_activate (cs : Caches) : Caches :=
  let cacheNames := keys cs in
  fold_left delete (List.filter is_old cacheNames) cs.

(** *** fetch *)

Record FetchResult : Type := {
  (* the promise handed to [event.respondWith]; [None] when the handler
     returns without calling it and the browser handles the request *)
  respondWith : option (Settled Response);
  (* the cache storage once the handler's writes have landed *)
  fetch_caches : Caches;
  (* the requests the handler sent to the network, in order *)
  network_calls : list Request
}.

(** The response synthesised when an API request finds neither network
    nor cache. *)
Definition offline_response : Response :=
  new_Response
    (JSON_stringify
       (JObj [("error", JBool true);
              ("message", JStr "Offline - Data tidak tersedia")]))
    {| init_status := None;
       init_headers := [("Content-Type", "application/json")] |}.

Definition on_fetch (net : Network) (cs : Caches) (request : Request)
  : FetchResult :=
  (* Skip non-GET requests *)
  if negb (String.eqb (method request) "GET") then
    {| respondWith := None; fetch_caches := cs; network_calls := [] |}
  (* Handle API requests with network-first strategy *)
  else if String.eqb (origin (url request)) API_ORIGIN then
    match net request with
    | Some response =>
        let responseToCache := clone response in
        {| respondWith := Some (Resolved response);
           fetch_caches := open_put cs DYNAMIC_CACHE request responseToCache;
           network_calls := [request] |}
    | None =>
        (* If network fails, try to serve from cache *)
        match caches_match cs request with
        | Some cachedResponse =>
            {| respondWith := Some (Resolved cachedResponse);
               fetch_caches := cs; network_calls := [request] |}
        | None =>
            {| respondWith := Some (Resolved offline_response);
               fetch_caches := cs; network_calls := [request] |}
        end
    end
  (* Handle static assets with cache-first strategy *)
  else
    match caches_match cs request with
    | Some cachedResponse =>
        {| respondWith := Some (Resolved cachedResponse);
           fetch_caches := cs; network_calls := [] |}
    | None =>
        match net request with
        | Some response =>
            (* Don't cache if not a valid response; the resolved value
               of [fetch] is a response object, so [!response] is false *)
            if negb (status response =? 200)
               || negb (String.eqb (type_name (type response)) "basic")
            then
              {| respondWith := Some (Resolved response);
                 fetch_caches := cs; network_calls := [request] |}
            else
              let responseToCache := clone response in
              {| respondWith := Some (Resolved response);
                 fetch_caches := open_put cs STATIC_CACHE request responseToCache;
                 network_calls := [request] |}
        | None =>
            {| respondWith := Some Rejected;
               fetch_caches := cs; network_calls := [request] |}
        end
    end.

(** *** The cache storages the worker brings about *)

(** The cache storages reached from an empty one by the events that write
    to it, install, activate and fetch, for a worker served from
    [location_origin]. *)
Inductive reachable (location_origin : string) : Caches -> Prop :=
| reach_empty : reachable location_origin []
| reach_install net storable cs :
    reachable location_origin cs ->
    reachable location_origin
      (install_caches (on_install net storable location_origin cs))
| reach_activate cs :
    reachable location_origin cs ->
    reachable location_origin (on_activate cs)
| reach_fetch net cs request :
    reachable location_origin cs ->
    reachable location_origin (fetch_caches (on_fetch net cs request)).

(** No key of the cache is a URL of the API origin. *)
Definition no_api_key (c : Cache) : Prop :=
  Forall (fun kv => origin (fst kv) <> API_ORIGIN) c.

(** Only the dynamic cache holds requests to the API origin. *)
Definition api_in_dynamic_only (cs : Caches) : Prop :=
  Forall (fun e => fst e <> DYNAMIC_CACHE -> no_api_key (snd e)) cs.

(** *** push *)

Record NotificationData : Type := {
  title : JsValue;
  n_body : JsValue;
  icon : JsValue;
  badge : JsValue;
  image : JsValue;
  tag : JsValue;
  data : JsValue;
  requireInteraction : bool
}.

(** The initial [notificationData]; it has no [image] and no [data]. *)
Definition default_notification : NotificationData :=
  {| title := JStr "Cerita Baru";
     n_body := JStr "Ada cerita baru yang ditambahkan!";
     icon := JStr "/favicon.png";
     badge := JStr "/favicon.png";
     image := JUndefined;
     tag := JStr "new-story";
     data := JUndefined;
     requireInteraction := false |}.

(** The [try] block: [event.data.json()] and the object built from it.
    [None] is a throw, by the parser or by a property read on [null]. *)
Definition decode (payload : string) : option NotificationData :=
  d ← JSON_parse payload;
  d_title ← prop d "title";
  d_body ← prop d "body";
  d_message ← prop d "message";
  d_icon ← prop d "icon";
  d_image ← prop d "image";
  d_tag ← prop d "tag";
  d_data ← prop d "data";
  Some {| title := js_or d_title (JStr "Cerita Baru");
          n_body := js_or (js_or d_body d_message)
                      (JStr "Ada cerita baru yang ditambahkan!");
          icon := js_or d_icon (JStr "/favicon.png");
          badge := JStr "/favicon.png";
          image := js_or d_image JNull;
          tag := js_or d_tag (JStr "new-story");
          data := js_or d_data (JObj []);
          requireInteraction := false |}.

(** [event.data] is [None] for a push without payload, else the payload
    bytes, which [json()] parses and [text()] returns as they are. *)
Definition notification_of (event_data : option string) : NotificationData :=
  match event_data with
  | None => default_notification
  | Some payload =>
      match decode payload with
      | Some notificationData => notificationData
      | None =>
          let text := payload in
          if truthy (JStr text) then
            {| title := title default_notification;
               n_body := JStr text;
               icon := icon default_notification;
               badge := badge default_notification;
               image := image default_notification;
               tag := tag default_notification;
               data := data default_notification;
               requireInteraction := requireInteraction default_notification |}
          else default_notification
      end
  end.

Record Action : Type := {
  action : string;
  action_title : string;
  action_icon : option string
}.

Record NotificationOptions : Type := {
  o_body : JsValue;
  o_icon : JsValue;
  o_badge : JsValue;
  o_image : JsValue;
  o_tag : JsValue;
  o_data : JsValue;
  o_requireInteraction : bool;
  o_actions : list Action;
  o_vibrate : list Z;
  o_timestamp : Z
}.

(** One call of [self.registration.showNotification(title, options)]. *)
Record ShowNotification : Type := {
  shown_title : JsValue;
  shown_options : NotificationOptions
}.

(** The push handler; [now] is the value of [Date.now()]. *)
Definition on_push (now : Z) (event_data : option string) : ShowNotification :=
  let notificationData := notification_of event_data in
  {| shown_title := title notificationData;
     shown_options :=
       {| o_body := n_body notificationData;
          o_icon := icon notificationData;
          o_badge := badge notificationData;
          o_image := image notificationData;
          o_tag := tag notificationData;
          o_data := data notificationData;
          o_requireInteraction := requireInteraction notificationData;
          o_actions :=
            [ {| action := "view"; action_title := "Lihat Cerita";
                 action_icon := Some "/favicon.png" |};
              {| action := "close"; action_title := "Tutup";
                 action_icon := None |} ];
          o_vibrate := [200; 100; 200];
          o_timestamp := now |} |}.

(** *** sync *)

(** Modelled from the spec: the records of the [favorites] object store,
    whose schema the application declares.  A record is opaque but for the
    key it carries and the boolean flag the replay advances. *)
Record Favorite : Type := {
  id : string;
  story : string;
  synced : bool
}.

(** [favorite.synced = true] *)
Definition mark_synced (f : Favorite) : Favorite :=
  {| id := id f; story := story f; synced := true |}.

(** The order of the records in an object store: ascending keys, string
    keys compared character by character. *)
Definition key_le (a b : string * Favorite) : Prop :=
  String.leb (fst a) (fst b) = true.

#[export] Instance key_le_dec : RelDecision key_le :=
  fun a b => decide (String.leb (fst a) (fst b) = true).

(** [store.getAll()]: the records, in the order of their keys. *)
Definition getAll (store : gmap string Favorite) : list Favorite :=
  List.map snd (merge_sort key_le (map_to_list store)).

(** [store.put(favorite)]: the record goes under its own key. *)
Definition put (store : gmap string Favorite) (f : Favorite)
  : gmap string Favorite :=
  <[id f := f]> store.

(** Modelled from the spec: the schema of the [favorites] store is set up
    by the application, not by the worker.  The replay updates records in
    place with a one-argument [put], so the store keeps each record under
    the key the record itself carries. *)
Definition inline_keys (store : gmap string Favorite) : Prop :=
  map_Forall (fun k f => id f = k) store.

Record SyncResult : Type := {
  sync_promise : Settled unit;
  sync_store : option (gmap string Favorite);
  (* the [put] calls issued, in order *)
  sync_puts : list Favorite
}.

(** [syncStories()].  The database is [None] when it cannot be opened or
    has no [favorites] store: the failure is logged and thrown again. *)
Definition syncStories (db : option (gmap string Favorite)) : SyncResult :=
  match db with
  | None => {| sync_promise := Rejected; sync_store := None; sync_puts := [] |}
  | Some store =>
      let favorites := getAll store in
      let unsynced := List.filter (fun f => negb (synced f)) favorites in
      if (0 <? length unsynced)%nat then
        let puts := List.map mark_synced unsynced in
        {| sync_promise := Resolved tt;
           sync_store := Some (fold_left put puts store);
           sync_puts := puts |}
      else
        {| sync_promise := Resolved tt; sync_store := Some store; sync_puts := [] |}
  end.

Record SyncEvent : Type := {
  (* the promise given to [event.waitUntil], if the handler gave one *)
  waitUntil : option (Settled unit);
  queue_after : option (gmap string Favorite);
  puts_issued : list Favorite
}.

Definition on_sync (event_tag : string) (db : option (gmap string Favorite))
  : SyncEvent :=
  if String.eqb event_tag "sync-stories" then
    let r := syncStories db in
    {| waitUntil := Some (sync_promise r);
       queue_after := sync_store r;
       puts_issued := sync_puts r |}
  else {| waitUntil := None; queue_after := db; puts_issued := [] |}.

(** *** notificationclick *)

(** [v?.k]: [undefined] where reading [v.k] would throw. *)
Definition optional_prop (v : JsValue) (k : string) : JsValue :=
  match prop v k with
  | Some x => x
  | None => JUndefined
  end.

(** [notification.data] of a notification shown with [options.data]: the
    member defaults to [null]. *)
Definition notification_data (options_data : JsValue) : JsValue :=
  match options_data with
  | JUndefined => JNull
  | d => d
  end.

(** What the handler reads of a client returned by [clients.matchAll]. *)
Record WindowClient : Type := {
  client_url : string;
  has_focus : bool;       (* ['focus' in client] *)
  has_navigate : bool     (* [client.navigate] is defined *)
}.

(** The calls the click handler makes, clients named by their index in
    the list [clients.matchAll] resolved with. *)
Inductive ClickStep : Type :=
| NotificationClose
| ClientFocus (i : nat)
| ClientNavigate (i : nat) (urlToOpen : JsValue)
| ClientUrlAssign (i : nat) (urlToOpen : JsValue)
| OpenWindow (urlToOpen : JsValue).

(** The test of the loop body. *)
Definition own_window (location_origin : string) (client : WindowClient) : bool :=
  String.prefix location_origin (client_url client) && has_focus client.

(** The [for] loop up to its first [return]: the first client passing the
    test, with its index, counting from [i]. *)
Fixpoint first_own_window (location_origin : string)
    (clientList : list WindowClient) (i : nat) : option (nat * WindowClient) :=
  match clientList with
  | [] => None
  | client :: rest =>
      if own_window location_origin client then Some (i, client)
      else first_own_window location_origin rest (S i)
  end.

(** The click handler.  [clients_openWindow] tells whether
    [clients.openWindow] is defined; [data] is [event.notification.data].
    Focusing and navigating are taken to succeed. *)
Definition on_notificationclick (location_origin : string)
    (clients_openWindow : bool) (event_action : string) (data : JsValue)
    (clientList : list WindowClient) : list ClickStep :=
  NotificationClose ::
  if String.eqb event_action "close" then []
  else
    (* Default action or 'view' action *)
    let data_url := optional_prop data "url" in
    let urlToOpen := js_or data_url (JStr (location_origin ++ "/#/")) in
    match first_own_window location_origin clientList 0 with
    | Some (i, client) =>
        if truthy data_url then
          [ClientFocus i;
           if has_navigate client then ClientNavigate i urlToOpen
           else ClientUrlAssign i urlToOpen]
        else [ClientFocus i]
    | None =>
        if clients_openWindow then [OpenWindow urlToOpen] else []
    end.

(** The steps that bring a window in front of the user. *)
Definition raises_window (step : ClickStep) : bool :=
  match step with
  | ClientFocus _ | OpenWindow _ => true
  | _ => false
  end.

(** The steps that change what a client shows. *)
Definition redirects (step : ClickStep) : bool :=
  match step with
  | ClientNavigate _ _ | ClientUrlAssign _ _ => true
  | _ => false
  end.

(** A JSON value that is neither an object nor [null]. *)
Definition plain_value (v : JsValue) : bool :=
  match v with
  | JBool _ | JNum _ _ | JStr _ | JArr _ => true
  | _ => false
  end.

End Worker.

(* ===================================================================== *)
(** ** Sample requests, responses, caches and queues *)
(* ===================================================================== *)

Module Samples.
Import Json Http CacheStorage Worker.

Definition api_request : Request :=
  {| method := "GET"; url := "https://story-api.dicoding.dev/v1/stories" |}.

Definition page_request : Request :=
  {| method := "GET"; url := "https://storymap.example/style.css" |}.

Definition stories : Response :=
  {| status := 200; type := Cors;
     headers := [("Content-Type", "application/json")];
     body := dq "{'error':false,'listStory':[]}" |}.


Definition older_stories : Response :=
  {| status := 200; type := Cors;
     headers := [("Content-Type", "application/json")];
     body := dq "{'error':false,'listStory':[{'id':'story-1'}]}" |}.

Definition stylesheet : Response :=
  {| status := 200; type := Basic;
     headers := [("Content-Type", "text/css")];
     body := "body{margin:0}" |}.

Definition missing_page : Response :=
  {| status := 404; type := Basic;
     headers := [("Content-Type", "text/html")];
     body := "Not Found" |}.


(** A cache that takes every pair, and one whose quota is used up. *)
Definition roomy : Storable := fun _ _ => true.
Definition full : Storable := fun _ _ => false.

(** Networks: one answering every request alike, one that is down, and
    one that serves the shell except for its script. *)
Definition answering (r : Response) : Network := fun _ => Some r.
Definition offline : Network := fun _ => None.
Definition script_missing : Network :=
  fun req =>
    if String.eqb (url req) "https://storymap.example/main.js"
    then None else Some stylesheet.

(** The dynamic cache holds an answer to the API request. *)
Definition warm : Caches :=
  [(STATIC_CACHE, [(url page_request, stylesheet)]);
   (DYNAMIC_CACHE, [(url api_request, older_stories)])].

(** Caches of two deployments side by side. *)
Definition two_versions : Caches :=
  [("storymap-static-v0", [(url page_request, missing_page)]);
   (STATIC_CACHE, [(url page_request, stylesheet)]);
   (CACHE_NAME, []);
   (DYNAMIC_CACHE, [(url api_request, older_stories)])].

Definition story_push : string := dq "{'title':'T','body':'B'}".

Definition favorites : gmap string Favorite :=
  <["story-1" := {| id := "story-1"; story := "Pantai"; synced := true |}]>
  (<["story-2" := {| id := "story-2"; story := "Gunung"; synced := false |}]>
  (<["story-3" := {| id := "story-3"; story := "Kota"; synced := false |}]> ∅)).

(** Pushes carrying a target, a message in place of a body, and a JSON
    string. *)
Definition linked_push : string :=
  dq "{'title':'T','body':'B','data':{'url':'https://storymap.example/#/stories/1'}}".
Definition message_push : string := dq "{'message':'Baru!'}".
Definition quoted_push : string := dq "'Halo dunia'".

(** Open windows: a page of another site, then two of the application. *)
Definition windows : list WindowClient :=
  [ {| client_url := "https://other.example/"; has_focus := true;
       has_navigate := true |};
    {| client_url := "https://storymap.example/#/add"; has_focus := true;
       has_navigate := true |};
    {| client_url := "https://storymap.example/#/"; has_focus := true;
       has_navigate := true |} ].

(** A cache left by an earlier deployment holds an answer to the API
    request; the current caches do not. *)
Definition old_only : Caches :=
  [("storymap-dynamic-v0", [(url api_request, older_stories)]);
   (STATIC_CACHE, [(url page_request, stylesheet)])].

(** A network serving every request with the stylesheet. *)
Definition serving : Network := answering stylesheet.

(** The caches after an install, the activation and one visit of the
    story list while online. *)
Definition visited : Caches :=
  fetch_caches
    (on_fetch (answering stories)
       (on_activate
          (install_caches
             (on_install serving roomy "https://storymap.example" [])))
       api_request).

(** A queue in which nothing is left to replay. *)
Definition replayed : gmap string Favorite :=
  <["story-1" := {| id := "story-1"; story := "Pantai"; synced := true |}]> ∅.

End Samples.

(* ===================================================================== *)
(** ** Properties of the cache storage *)
(* ===================================================================== *)

Section CacheFacts.
Import Http CacheStorage.

Lemma cache_match_app c1 c2 req :
  cache_match (c1 ++ c2)%list req =
    match cache_match c1 req with
    | Some r => Some r
    | None => cache_match c2 req
    end.
Proof.
  induction c1 as [|[k r] c1 IH]; simpl; [reflexivity|].
  destruct (String.eqb k (url req)); [reflexivity | apply IH].
Qed.

Lemma cache_match_without_key c req :
  cache_match
    (List.filter (fun e => negb (String.eqb (fst e) (url req))) c) req = None.
Proof.
  induction c as [|[k r] c IH]; simpl; [reflexivity|].
  destruct (String.eqb k (url req)) eqn:E; simpl; [apply IH|].
  rewrite E. apply IH.
Qed.


Lemma has_cons n c cs name :
  has ((n, c) :: cs) name = String.eqb name n || has cs name.
Proof. reflexivity. Qed.

Lemma has_app cs1 cs2 name : has (cs1 ++ cs2)%list name = has cs1 name || has cs2 name.
Proof. unfold has, keys. now rewrite List.map_app, List.existsb_app. Qed.

Lemma has_open cs name : has (open cs name) name = true.
Proof.
  unfold open. destruct (has cs name) eqn:E; [exact E|].
  rewrite has_app, E. simpl. unfold has. simpl. now rewrite String.eqb_refl.
Qed.

Lemma entries_update cs name f :
  has cs name = true -> entries (update cs name f) name = f (entries cs name).
Proof.
  induction cs as [|[n c] cs IH]; [discriminate|].
  rewrite has_cons. simpl. rewrite (String.eqb_sym name n).
  destruct (String.eqb n name) eqn:E; simpl; rewrite E; [reflexivity|].
  intros H. apply IH, H.
Qed.

Lemma entries_update_other cs name other f :
  name <> other -> entries (update cs name f) other = entries cs other.
Proof.
  intros Hne. induction cs as [|[n c] cs IH]; [reflexivity|]. simpl.
  destruct (String.eqb n name) eqn:E; simpl.
  - apply String.eqb_eq in E. subst n.
    destruct (String.eqb name other) eqn:E'; [|reflexivity].
    apply String.eqb_eq in E'. contradiction.
  - destruct (String.eqb n other); [reflexivity | apply IH].
Qed.

Lemma entries_absent cs name : has cs name = false -> entries cs name = [].
Proof.
  induction cs as [|[n c] cs IH]; [reflexivity|].
  rewrite has_cons, (String.eqb_sym name n). simpl.
  destruct (String.eqb n name); [discriminate | exact IH].
Qed.

(** Opening a cache changes the entries of no cache. *)
Lemma entries_open cs name other : entries (open cs name) other = entries cs other.
Proof.
  unfold open. destruct (has cs name) eqn:E; [reflexivity|].
  induction cs as [|[n c] cs IH]; simpl.
  - destruct (String.eqb name other); reflexivity.
  - rewrite has_cons in E. apply orb_false_iff in E as [_ E].
    destruct (String.eqb n other); [reflexivity | apply IH, E].
Qed.






Lemma caches_match_app cs1 cs2 req :
  caches_match (cs1 ++ cs2)%list req =
    match caches_match cs1 req with
    | Some r => Some r
    | None => caches_match cs2 req
    end.
Proof.
  induction cs1 as [|[n c] cs1 IH]; simpl; [reflexivity|].
  destruct (cache_match c req); [reflexivity | apply IH].
Qed.

End CacheFacts.

(* ===================================================================== *)
(** ** The fetch handler *)
(* ===================================================================== *)

Section FetchFacts.
Import Json Http CacheStorage Worker.

Variable net : Network.
Variable cs : Caches.
Variable request : Request.

(** The two tests that route a request. *)
Lemma get_test : method request = "GET" -> String.eqb (method request) "GET" = true.
Proof. intros ->. reflexivity. Qed.

Lemma api_test :
  origin (url request) = API_ORIGIN ->
  String.eqb (origin (url request)) API_ORIGIN = true.
Proof. intros ->. reflexivity. Qed.

Lemma static_test :
  origin (url request) <> API_ORIGIN ->
  String.eqb (origin (url request)) API_ORIGIN = false.
Proof. intros H. now apply String.eqb_neq. Qed.

(** The network-first branch, once the routing is decided. *)
Lemma on_fetch_api :
  method request = "GET" -> origin (url request) = API_ORIGIN ->
  on_fetch net cs request =
    match net request with
    | Some response =>
        {| respondWith := Some (Resolved response);
           fetch_caches := open_put cs DYNAMIC_CACHE request response;
           network_calls := [request] |}
    | None =>
        {| respondWith :=
             Some (Resolved (default offline_response (caches_match cs request)));
           fetch_caches := cs; network_calls := [request] |}
    end.
Proof.
  intros Hm Ho. unfold on_fetch.
  rewrite (get_test Hm), (api_test Ho). simpl.
  destruct (net request); [reflexivity|].
  destruct (caches_match cs request); reflexivity.
Qed.

(** The cache-first branch, once the routing is decided. *)
Lemma on_fetch_static :
  method request = "GET" -> origin (url request) <> API_ORIGIN ->
  on_fetch net cs request =
    match caches_match cs request with
    | Some cachedResponse =>
        {| respondWith := Some (Resolved cachedResponse);
           fetch_caches := cs; network_calls := [] |}
    | None =>
        match net request with
        | Some response =>
            {| respondWith := Some (Resolved response);
               fetch_caches :=
                 if (status response =? 200)
                    && String.eqb (type_name (type response)) "basic"
                 then open_put cs STATIC_CACHE request response else cs;
               network_calls := [request] |}
        | None =>
            {| respondWith := Some Rejected;
               fetch_caches := cs; network_calls := [request] |}
        end
    end.
Proof.
  intros Hm Ho. unfold on_fetch.
  rewrite (get_test Hm), (static_test Ho). simpl.
  destruct (caches_match cs request); [reflexivity|].
  destruct (net request) as [response|]; [|reflexivity].
  destruct (status response =? 200);
    destruct (String.eqb (type_name (type response)) "basic"); reflexivity.
Qed.

Lemma type_name_basic t : String.eqb (type_name t) "basic" = true <-> t = Basic.
Proof. destruct t; simpl; split; intros H; try reflexivity; discriminate. Qed.


(** The body of the offline response is JSON text, and it reads back as
    the object it was made from. *)
Lemma offline_body_parses :
  JSON_parse (body offline_response)
  = Some (JObj [("error", JBool true);
                ("message", JStr "Offline - Data tidak tersedia")]).
Proof. vm_compute. reflexivity. Qed.

(** C2.  A GET request to the API origin whose network fetch fails and
    for which no cache holds an entry is answered with a response whose
    body is the JSON object [{error: true, message: "Offline - Data tidak
    tersedia"}]; and whatever the network and the caches do, the promise
    answering such a request resolves with a response and never rejects. *)
Theorem api_offline_is_structured :
  method request = "GET" ->
  origin (url request) = API_ORIGIN ->
  (net request = None -> caches_match cs request = None ->
     exists r,
       respondWith (on_fetch net cs request) = Some (Resolved r)
       /\ JSON_parse (body r)
          = Some (JObj [("error", JBool true);
                        ("message", JStr "Offline - Data tidak tersedia")]))
  /\ (exists r, respondWith (on_fetch net cs request) = Some (Resolved r)).
Proof.
  intros Hm Ho. rewrite (on_fetch_api Hm Ho). split.
  - intros -> ->. exists offline_response. split; [reflexivity|].
    apply offline_body_parses.
  - destruct (net request); eexists; reflexivity.
Qed.

(** C4.  A GET request to any other origin for which a cache holds an
    entry is answered with that entry as stored; the network is not
    called and nothing is written. *)
Theorem static_hit_no_network (cached : Response) :
  method request = "GET" ->
  origin (url request) <> API_ORIGIN ->
  caches_match cs request = Some cached ->
  respondWith (on_fetch net cs request) = Some (Resolved cached)
  /\ network_calls (on_fetch net cs request) = []
  /\ fetch_caches (on_fetch net cs request) = cs.
Proof.
  intros Hm Ho Hc. rewrite (on_fetch_static Hm Ho), Hc. repeat split.
Qed.


(** C10.  The offline response is built from a body and one header,
    [Content-Type: application/json], with no status given, so it has
    the default status 200 and counts as [ok]; what tells it from a
    success is the [error] member of its body, which is [true]. *)
Theorem offline_response_status_200 :
  status offline_response = 200
  /\ ok offline_response = true
  /\ headers offline_response = [("Content-Type", "application/json")]
  /\ (exists d,
        JSON_parse (body offline_response) = Some d
        /\ prop d "error" = Some (JBool true)).
Proof.
  repeat split.
  eexists. split; [apply offline_body_parses | reflexivity].
Qed.

End FetchFacts.

(* ===================================================================== *)
(** ** Activation *)
(* ===================================================================== *)

Section ActivateFacts.
Import Http CacheStorage Worker.

Lemma filter_filter {A} (f g : A -> bool) (l : list A) :
  List.filter f (List.filter g l) = List.filter (fun x => g x && f x) l.
Proof.
  induction l as [|x l IH]; simpl; [reflexivity|].
  destruct (g x); simpl; [destruct (f x)|]; now rewrite IH.
Qed.

(** Deleting a list of names one after the other keeps the caches whose
    name is not listed, in their order. *)
Lemma fold_delete (names : list string) (cs : Caches) :
  fold_left delete names cs
  = List.filter (fun e => negb (List.existsb (String.eqb (fst e)) names)) cs.
Proof.
  revert cs. induction names as [|n names IH]; intros cs; simpl.
  - symmetry. apply List.forallb_filter_id. now apply List.forallb_forall.
  - rewrite IH. unfold delete. rewrite filter_filter.
    apply List.filter_ext. intros e. now rewrite negb_orb.
Qed.

Lemma listed_old (cs : Caches) (e : string * Cache) :
  In e cs ->
  List.existsb (String.eqb (fst e)) (List.filter is_old (keys cs)) = is_old (fst e).
Proof.
  intros He. destruct (is_old (fst e)) eqn:Eo.
  - apply List.existsb_exists. exists (fst e). split; [|apply String.eqb_refl].
    apply List.filter_In. split; [|exact Eo]. unfold keys. now apply List.in_map.
  - apply not_true_is_false. intros H.
    apply List.existsb_exists in H as (n & Hn & Heq).
    apply String.eqb_eq in Heq. subst n.
    apply List.filter_In in Hn as [_ Hn]. congruence.
Qed.

(** Activation keeps exactly the two current caches, in place. *)
Lemma on_activate_filter (cs : Caches) :
  on_activate cs = List.filter (fun e => negb (is_old (fst e))) cs.
Proof.
  unfold on_activate. rewrite fold_delete. apply List.filter_ext_in.
  intros e He. now rewrite listed_old.
Qed.

Lemma is_old_spec (n : string) :
  is_old n = false <-> n = STATIC_CACHE \/ n = DYNAMIC_CACHE.
Proof.
  unfold is_old. rewrite andb_false_iff, !negb_false_iff, !String.eqb_eq. tauto.
Qed.

Lemma has_filter_kept (keep : string -> bool) (cs : Caches) (n : string) :
  has (List.filter (fun e => keep (fst e)) cs) n = keep n && has cs n.
Proof.
  induction cs as [|[m c] cs IH]; simpl.
  - unfold has. simpl. now rewrite andb_false_r.
  - destruct (keep m) eqn:Ek; simpl; rewrite !has_cons, IH.
    + destruct (String.eqb n m) eqn:E; simpl.
      * apply String.eqb_eq in E. subst m. now rewrite Ek.
      * reflexivity.
    + destruct (String.eqb n m) eqn:E; simpl; [|reflexivity].
      apply String.eqb_eq in E. subst m. now rewrite Ek.
Qed.

Lemma entries_filter_kept (keep : string -> bool) (cs : Caches) (n : string) :
  keep n = true -> entries (List.filter (fun e => keep (fst e)) cs) n = entries cs n.
Proof.
  intros Hk. induction cs as [|[m c] cs IH]; simpl; [reflexivity|].
  destruct (keep m) eqn:Ek; simpl.
  - destruct (String.eqb m n); [reflexivity | exact IH].
  - destruct (String.eqb m n) eqn:E; [|exact IH].
    apply String.eqb_eq in E. subst m. congruence.
Qed.

(** C6.  Activation deletes every cache whose name is neither the static
    nor the dynamic cache name, keeps those two caches (when present) with
    the entries they had, and activating again changes nothing more. *)
Theorem activate_cleans_and_is_idempotent (cs : Caches) :
  (forall n, n <> STATIC_CACHE -> n <> DYNAMIC_CACHE ->
     has (on_activate cs) n = false)
  /\ (forall n, n = STATIC_CACHE \/ n = DYNAMIC_CACHE ->
        has (on_activate cs) n = has cs n
        /\ entries (on_activate cs) n = entries cs n)
  /\ on_activate (on_activate cs) = on_activate cs.
Proof.
  rewrite !on_activate_filter. repeat split.
  - intros n Hs Hd.
    rewrite (has_filter_kept (fun m => negb (is_old m))).
    destruct (is_old n) eqn:E; [reflexivity|].
    apply is_old_spec in E. tauto.
  - rewrite (has_filter_kept (fun m => negb (is_old m))).
    apply is_old_spec in H. now rewrite H.
  - apply (entries_filter_kept (fun m => negb (is_old m))).
    apply is_old_spec in H. now rewrite H.
  - rewrite filter_filter. apply List.filter_ext. intros e. apply andb_diag.
Qed.

End ActivateFacts.

(* ===================================================================== *)
(** ** Installation *)
(* ===================================================================== *)

Section InstallFacts.
Import Http CacheStorage Worker.

Variable net : Network.

(** The network answers [req] with a response [addAll] accepts. *)
Local Abbreviation fetched req :=
  (exists r, net req = Some r /\ ok r = true /\ status r <> 206).

Lemma fetch_all_fails (reqs : list Request) :
  (exists req, In req reqs /\ ~ fetched req) -> fetch_all net reqs = None.
Proof.
  induction reqs as [|q reqs IH]; intros (req & Hin & Hbad); [destruct Hin|].
  simpl. destruct (net q) as [r|] eqn:En; [|reflexivity]. simpl.
  destruct (ok r) eqn:Eok; [|reflexivity].
  destruct (status r =? 206) eqn:Es; [reflexivity|]. simpl.
  destruct Hin as [->|Hin].
  - exfalso. apply Hbad. exists r. apply Z.eqb_neq in Es. now repeat split.
  - rewrite IH; [reflexivity|]. exists req. now split.
Qed.

(** What [fetch_all] returns is the requests in order, each with the
    response the network gave, all of them acceptable. *)
Lemma fetch_all_some (reqs : list Request) (pairs : list (Request * Response)) :
  fetch_all net reqs = Some pairs ->
  List.map fst pairs = reqs
  /\ (forall p, In p pairs ->
        net (fst p) = Some (snd p) /\ ok (snd p) = true /\ status (snd p) <> 206).
Proof.
  revert pairs. induction reqs as [|q reqs IH]; intros pairs H; simpl in H.
  - injection H as <-. split; [reflexivity | intros p []].
  - destruct (net q) as [r|] eqn:En; [|discriminate]. simpl in H.
    destruct (ok r) eqn:Eok; [|discriminate].
    destruct (status r =? 206) eqn:Es; [discriminate|]. simpl in H.
    destruct (fetch_all net reqs) as [tl|]; [|discriminate].
    injection H as <-. destruct (IH tl eq_refl) as [Hm Hn].
    split; [simpl; now rewrite Hm|].
    intros p [<-|Hin]; [|now apply Hn].
    apply Z.eqb_neq in Es. now repeat split.
Qed.

Lemma fetch_all_succeeds (reqs : list Request) :
  (forall req, In req reqs -> fetched req) ->
  exists pairs, fetch_all net reqs = Some pairs.
Proof.
  induction reqs as [|q reqs IH]; intros Hall; [now exists []|].
  destruct (Hall q) as (r & Hr & Hok & Hs); [now left|].
  destruct IH as (pairs & Hp). { intros req Hin. apply Hall. now right. }
  exists ((q, r) :: pairs). simpl. rewrite Hr. simpl.
  apply Z.eqb_neq in Hs. now rewrite Hok, Hs, Hp.
Qed.

Lemma cache_match_put_other c req' r' req :
  url req' <> url req -> cache_match (put_entry c req' r') req = cache_match c req.
Proof.
  intros Hne. unfold put_entry. rewrite cache_match_app. simpl.
  assert (String.eqb (url req') (url req) = false) as -> by now apply String.eqb_neq.
  induction c as [|[k r] c IH]; simpl; [reflexivity|].
  destruct (String.eqb k (url req')) eqn:E; simpl.
  - apply String.eqb_eq in E. subst k.
    assert (String.eqb (url req') (url req) = false) as -> by now apply String.eqb_neq.
    exact IH.
  - destruct (String.eqb k (url req)); [reflexivity | exact IH].
Qed.

Lemma has_update cs name f n : has (update cs name f) n = has cs n.
Proof.
  induction cs as [|[m c] cs IH]; [reflexivity|]. simpl.
  destruct (String.eqb m name); rewrite !has_cons; [reflexivity | now rewrite IH].
Qed.

Lemma update_update cs name (f g : Cache -> Cache) :
  update (update cs name f) name g = update cs name (fun c => g (f c)).
Proof.
  induction cs as [|[n c] cs IH]; [reflexivity|]. simpl.
  destruct (String.eqb n name) eqn:E; simpl; rewrite E; [reflexivity|].
  now rewrite IH.
Qed.

(** Setting a cache back to the entries it has changes nothing. *)
Lemma update_restore cs name : update cs name (fun _ => entries cs name) = cs.
Proof.
  induction cs as [|[n c] cs IH]; [reflexivity|]. simpl.
  destruct (String.eqb n name); [reflexivity | now rewrite IH].
Qed.


Lemma put_all_snoc cs name pairs p :
  put_all cs name (pairs ++ [p])%list
  = update (put_all cs name pairs) name (fun c => put_entry c (fst p) (snd p)).
Proof. unfold put_all. now rewrite List.fold_left_app. Qed.

Lemma has_put_all cs name pairs n : has (put_all cs name pairs) n = has cs n.
Proof.
  induction pairs as [|p pairs IH] using List.rev_ind; [reflexivity|].
  now rewrite put_all_snoc, has_update.
Qed.

(** A batch of writes is one update of the cache. *)
Lemma put_all_update name pairs :
  exists F, forall cs, put_all cs name pairs = update cs name F.
Proof.
  induction pairs as [|p pairs (F & HF)] using List.rev_ind.
  - exists (fun c => c). intros cs. simpl.
    induction cs as [|[n c] cs IH]; [reflexivity|]. simpl.
    destruct (String.eqb n name); [reflexivity | now rewrite <- IH].
  - exists (fun c => put_entry (F c) (fst p) (snd p)). intros cs.
    now rewrite put_all_snoc, HF, update_update.
Qed.

(** Writes undone by setting the cache back to its copy. *)
Lemma put_all_restore cs name pairs :
  update (put_all cs name pairs) name (fun _ => entries cs name) = cs.
Proof.
  destruct (put_all_update name pairs) as (F & HF).
  rewrite HF, update_update. apply update_restore.
Qed.

Lemma batch_put_all (storable : Storable) cs name pairs :
  (forall p, In p pairs -> storable (fst p) (snd p) = true) ->
  batch_put storable cs name pairs = (true, put_all cs name pairs).
Proof.
  revert cs. induction pairs as [|p pairs IH]; intros cs Hall; [reflexivity|].
  simpl. rewrite (Hall p) by now left. apply IH.
  intros q Hq. apply Hall. now right.
Qed.

(** A batch with a pair the cache cannot take stops short, having written
    some of the pairs. *)
Lemma batch_put_stops (storable : Storable) cs name pairs :
  (exists p, In p pairs /\ storable (fst p) (snd p) = false) ->
  exists written, batch_put storable cs name pairs = (false, put_all cs name written).
Proof.
  revert cs. induction pairs as [|p pairs IH]; intros cs (q & Hin & Hq);
    [destruct Hin|].
  simpl. destruct (storable (fst p) (snd p)) eqn:Ep.
  - destruct Hin as [->|Hin]; [congruence|].
    destruct (IH (update cs name (fun c => put_entry c (fst p) (snd p))))
      as (written & Hw).
    { exists q. now split. }
    exists (p :: written). exact Hw.
  - now exists [].
Qed.

(** After a batch of puts whose responses are a function of the URL, each
    request of the batch finds its response. *)
Lemma put_all_found cs name pairs :
  has cs name = true ->
  (forall p q, In p pairs -> In q pairs ->
     url (fst p) = url (fst q) -> snd p = snd q) ->
  forall p, In p pairs ->
    cache_match (entries (put_all cs name pairs) name) (fst p) = Some (snd p).
Proof.
  intros Hhas. induction pairs as [|q pairs IH] using List.rev_ind;
    intros Hfun p Hin; [destruct Hin|].
  rewrite put_all_snoc, entries_update by now rewrite has_put_all.
  destruct (String.eqb (url (fst q)) (url (fst p))) eqn:E.
  - apply String.eqb_eq in E.
    rewrite <- (Hfun q p); [| apply List.in_or_app; right; now left | exact Hin | exact E].
    unfold put_entry. rewrite E, cache_match_app, cache_match_without_key.
    simpl. now rewrite String.eqb_refl.
  - apply String.eqb_neq in E. rewrite cache_match_put_other by exact E.
    apply List.in_app_or in Hin as [Hin|[->|[]]]; [|congruence].
    apply IH; [|exact Hin].
    intros a b Ha Hb. apply Hfun; apply List.in_or_app; now left.
Qed.

(** The pairs fetched for the shell answer each URL in one way. *)
Lemma shell_pairs_functional (location_origin : string) (urls : list string)
    (pairs : list (Request * Response)) :
  fetch_all net (List.map (asset_request location_origin) urls) = Some pairs ->
  forall a b, In a pairs -> In b pairs ->
    url (fst a) = url (fst b) -> snd a = snd b.
Proof.
  intros Hp a b Ha Hb Hurl.
  destruct (fetch_all_some _ _ Hp) as [Hm Hn].
  assert (fst a = fst b) as Heq.
  { assert (In (fst a) (List.map fst pairs)) as Hfa by now apply List.in_map.
    assert (In (fst b) (List.map fst pairs)) as Hfb by now apply List.in_map.
    rewrite Hm in Hfa, Hfb.
    apply List.in_map_iff in Hfa as (pa & Ea & _).
    apply List.in_map_iff in Hfb as (pb & Eb & _).
    rewrite <- Ea, <- Eb in Hurl |- *.
    unfold asset_request in *. simpl in Hurl. now rewrite Hurl. }
  destruct (Hn a Ha) as [Hna _]. destruct (Hn b Hb) as [Hnb _].
  rewrite Heq in Hna. congruence.
Qed.

(** The install step when it goes through. *)
Lemma install_success (storable : Storable) (location_origin : string)
    (cs : Caches) :
  (forall path, In path STATIC_ASSETS ->
     served net storable (asset_request location_origin path)) ->
  exists pairs,
    fetch_all net (List.map (asset_request location_origin) STATIC_ASSETS)
    = Some pairs
    /\ on_install net storable location_origin cs
       = {| install_promise := Resolved tt;
            install_caches := put_all (open cs STATIC_CACHE) STATIC_CACHE pairs;
            skipWaiting := true |}.
Proof.
  intros Hall.
  destruct (fetch_all_succeeds
              (List.map (asset_request location_origin) STATIC_ASSETS))
    as (pairs & Hp).
  { intros req Hin. apply List.in_map_iff in Hin as (path & <- & Hin).
    destruct (Hall path Hin) as (r & Hr & Hok & Hs & _). now exists r. }
  exists pairs. split; [exact Hp|].
  unfold on_install, addAll. rewrite Hp.
  rewrite batch_put_all; [reflexivity|].
  intros p Hin. destruct (fetch_all_some _ _ Hp) as [Hm Hn].
  assert (In (fst p) (List.map fst pairs)) as Hreq by now apply List.in_map.
  rewrite Hm in Hreq. apply List.in_map_iff in Hreq as (path & Epath & Hpath).
  destruct (Hall path Hpath) as (r & Hr & _ & _ & Hst).
  destruct (Hn p Hin) as [Hnp _].
  rewrite Epath in Hr. rewrite Hr in Hnp. injection Hnp as ->. now rewrite <- Epath.
Qed.

(** The install step when a listed asset cannot be fetched or stored. *)
Lemma install_failure (storable : Storable) (location_origin : string)
    (cs : Caches) :
  (exists path, In path STATIC_ASSETS
                /\ ~ served net storable (asset_request location_origin path)) ->
  on_install net storable location_origin cs
  = {| install_promise := Rejected;
       install_caches := open cs STATIC_CACHE;
       skipWaiting := true |}.
Proof.
  intros (path & Hin & Hbad). unfold on_install, addAll.
  destruct (fetch_all net (List.map (asset_request location_origin) STATIC_ASSETS))
    as [pairs|] eqn:Hp; [|reflexivity].
  destruct (fetch_all_some _ _ Hp) as [Hm Hn].
  assert (In (asset_request location_origin path) (List.map fst pairs)) as Hreq.
  { rewrite Hm. now apply List.in_map. }
  apply List.in_map_iff in Hreq as (p & Hfst & Hpin).
  destruct (batch_put_stops storable (open cs STATIC_CACHE) STATIC_CACHE pairs)
    as (written & Hw).
  { exists p. split; [exact Hpin|].
    apply not_true_is_false. intros Hst. apply Hbad.
    destruct (Hn p Hpin) as (Hnp & Hok & Hs).
    exists (snd p). rewrite <- Hfst. now repeat split. }
  rewrite Hw. now rewrite put_all_restore.
Qed.

(** C7.  The shell is populated all or not at all.  If any one listed
    asset is not served (its fetch fails, its status is not [ok] or is 206,
    or the cache cannot store it), the promise of the install step rejects
    and the cache storage is the one there was, with the static cache
    opened and holding exactly the entries it held before, none when it was
    just created: the writes made before the failing one are undone.  If
    every listed asset is served, the promise resolves and each asset is
    found in the static cache with the response the network gave. *)
Theorem install_all_or_nothing (storable : Storable) (location_origin : string)
    (cs : Caches) :
  ((exists path, In path STATIC_ASSETS
                 /\ ~ served net storable (asset_request location_origin path)) ->
     install_promise (on_install net storable location_origin cs) = Rejected
     /\ install_caches (on_install net storable location_origin cs)
        = open cs STATIC_CACHE
     /\ entries (install_caches (on_install net storable location_origin cs))
          STATIC_CACHE
        = entries cs STATIC_CACHE)
  /\ ((forall path, In path STATIC_ASSETS ->
                    served net storable (asset_request location_origin path)) ->
      install_promise (on_install net storable location_origin cs) = Resolved tt
      /\ forall path, In path STATIC_ASSETS ->
           cache_match
             (entries (install_caches (on_install net storable location_origin cs))
                STATIC_CACHE)
             (asset_request location_origin path)
           = net (asset_request location_origin path)).
Proof.
  split.
  - intros Hbad. rewrite (install_failure _ _ _ Hbad). simpl.
    repeat split. apply entries_open.
  - intros Hall. destruct (install_success _ location_origin cs Hall)
      as (pairs & Hp & ->). simpl. split; [reflexivity|].
    intros path Hin. destruct (fetch_all_some _ _ Hp) as [Hm Hn].
    assert (In (asset_request location_origin path) (List.map fst pairs)) as Hreq.
    { rewrite Hm. now apply List.in_map. }
    apply List.in_map_iff in Hreq as (p & Hfst & Hpin).
    destruct (Hn p Hpin) as [Hnp _]. rewrite <- Hfst, Hnp.
    apply put_all_found; [apply has_open | | exact Hpin].
    exact (shell_pairs_functional _ _ _ Hp).
Qed.

End InstallFacts.

(* ===================================================================== *)
(** ** Push notifications *)
(* ===================================================================== *)

Section PushFacts.
Import Json Worker.

Lemma truthy_text (s : string) : s <> EmptyString -> truthy (JStr s) = true.
Proof.
  intros H. simpl. apply negb_true_iff. now apply String.eqb_neq.
Qed.

(** The object built in the [try] block from a parsed object. *)
Lemma decode_object (payload : string) (fs : list (string * JsValue)) :
  JSON_parse payload = Some (JObj fs) ->
  decode payload
  = Some {| title := js_or (field "title" fs) (JStr "Cerita Baru");
            n_body := js_or (js_or (field "body" fs) (field "message" fs))
                        (JStr "Ada cerita baru yang ditambahkan!");
            icon := js_or (field "icon" fs) (JStr "/favicon.png");
            badge := JStr "/favicon.png";
            image := js_or (field "image" fs) JNull;
            tag := js_or (field "tag" fs) (JStr "new-story");
            data := js_or (field "data" fs) (JObj []);
            requireInteraction := false |}.
Proof. intros H. unfold decode. rewrite H. reflexivity. Qed.

Lemma decode_syntax_error (payload : string) :
  JSON_parse payload = None -> decode payload = None.
Proof. intros H. unfold decode. rewrite H. reflexivity. Qed.

(** C8, as the code has it.  A payload that decodes to a JSON object with
    non-empty strings under [title] and [body] and nothing under [icon] is
    shown with that title and body, the default icon and the default badge;
    a push without payload is shown with the default title and body; a
    non-empty payload that is not JSON becomes the body under the default
    title; an empty payload is not JSON either and keeps the default body.
    The handler shows one notification in each case. *)
Theorem push_shows_notification (now : Z) :
  (forall payload fs t b,
     JSON_parse payload = Some (JObj fs) ->
     field "title" fs = JStr t -> t <> EmptyString ->
     field "body" fs = JStr b -> b <> EmptyString ->
     field "icon" fs = JUndefined ->
     shown_title (on_push now (Some payload)) = JStr t
     /\ o_body (shown_options (on_push now (Some payload))) = JStr b
     /\ o_icon (shown_options (on_push now (Some payload))) = JStr "/favicon.png"
     /\ o_badge (shown_options (on_push now (Some payload))) = JStr "/favicon.png")
  /\ (shown_title (on_push now None) = JStr "Cerita Baru"
      /\ o_body (shown_options (on_push now None))
         = JStr "Ada cerita baru yang ditambahkan!"
      /\ o_icon (shown_options (on_push now None)) = JStr "/favicon.png"
      /\ o_badge (shown_options (on_push now None)) = JStr "/favicon.png")
  /\ (forall payload,
        JSON_parse payload = None -> payload <> EmptyString ->
        shown_title (on_push now (Some payload)) = JStr "Cerita Baru"
        /\ o_body (shown_options (on_push now (Some payload))) = JStr payload)
  /\ (JSON_parse EmptyString = None
      /\ o_body (shown_options (on_push now (Some EmptyString)))
         = JStr "Ada cerita baru yang ditambahkan!").
Proof.
  split; [|split; [|split]].
  - intros payload fs t b Hp Ht Htne Hb Hbne Hi.
    pose proof (truthy_text _ Htne) as Et.
    pose proof (truthy_text _ Hbne) as Eb.
    unfold on_push, notification_of. rewrite (decode_object _ _ Hp).
    cbn [shown_title shown_options o_body o_icon o_badge title n_body icon badge].
    rewrite Ht, Hb, Hi. unfold js_or. rewrite Et, Eb, Eb.
    repeat split.
  - repeat split.
  - intros payload Hp Hne.
    pose proof (truthy_text _ Hne) as Et.
    unfold on_push, notification_of. rewrite (decode_syntax_error _ Hp), Et.
    split; reflexivity.
  - split; reflexivity.
Qed.

End PushFacts.

(* ===================================================================== *)
(** ** Background sync *)
(* ===================================================================== *)

Section SyncFacts.
Import Worker.

Implicit Types (store : gmap string Favorite) (f : Favorite) (l : list Favorite).

Lemma id_mark_synced f : id (mark_synced f) = id f.
Proof. reflexivity. Qed.

Lemma mark_synced_fixed f : synced f = true -> mark_synced f = f.
Proof. destruct f as [i s b]. simpl. now intros ->. Qed.

(** Puts leave the keys they do not name alone. *)
Lemma fold_put_other l store (k : string) :
  ~ In k (List.map id l) -> fold_left put l store !! k = store !! k.
Proof.
  revert store. induction l as [|a l IH]; intros store Hk; [reflexivity|].
  simpl in *. rewrite IH by tauto.
  unfold put. apply lookup_insert_ne. tauto.
Qed.

(** A record put once is the record found under its key. *)
Lemma fold_put_found l store f :
  NoDup (List.map id l) -> In f l -> fold_left put l store !! id f = Some f.
Proof.
  revert store. induction l as [|a l IH]; intros store Hnd Hin; [destruct Hin|].
  simpl in *. apply NoDup_cons in Hnd as [Hfresh Hnd].
  destruct Hin as [->|Hin].
  - rewrite fold_put_other.
    + unfold put. apply lookup_insert_eq.
    + now rewrite <- list_elem_of_In.
  - now apply IH.
Qed.

(** The records read by [getAll] are the records of the store. *)
Lemma in_getAll store f :
  In f (getAll store) <-> exists k, store !! k = Some f.
Proof.
  unfold getAll. rewrite List.in_map_iff. split.
  - intros ([k g] & <- & Hin). exists k.
    apply list_elem_of_In in Hin. rewrite merge_sort_Permutation in Hin.
    now apply elem_of_map_to_list in Hin.
  - intros (k & Hk). exists (k, f). split; [reflexivity|].
    apply list_elem_of_In. rewrite merge_sort_Permutation.
    now apply elem_of_map_to_list.
Qed.

(** The ids of the records to write, read off a list of bindings that
    keeps each record under its own id, are among the keys of the list and
    in their order. *)
Lemma unsynced_ids_sublist (bs : list (string * Favorite)) :
  (forall k f, In (k, f) bs -> id f = k) ->
  sublist
    (List.map id
       (List.map mark_synced
          (List.filter (fun f => negb (synced f)) (List.map snd bs))))
    (List.map fst bs).
Proof.
  induction bs as [|[k f] bs IH]; intros Hkeys; simpl; [constructor|].
  assert (sublist
            (List.map id
               (List.map mark_synced
                  (List.filter (fun f => negb (synced f)) (List.map snd bs))))
            (List.map fst bs)) as Hrest.
  { apply IH. intros k' f' Hin. apply Hkeys. now right. }
  destruct (synced f); simpl.
  - now apply sublist_cons.
  - rewrite (Hkeys k f) by now left. now apply sublist_skip.
Qed.

Lemma unsynced_ids_nodup store :
  inline_keys store ->
  NoDup
    (List.map id
       (List.map mark_synced
          (List.filter (fun f => negb (synced f)) (getAll store)))).
Proof.
  intros Hkeys. unfold getAll.
  eapply sublist_NoDup; [|apply unsynced_ids_sublist].
  - change (List.map fst (merge_sort key_le (map_to_list store)))
      with ((merge_sort key_le (map_to_list store)).*1).
    rewrite merge_sort_Permutation. apply (NoDup_fst_map_to_list store).
  - intros k f Hin. apply Hkeys.
    apply list_elem_of_In in Hin. rewrite merge_sort_Permutation in Hin.
    now apply elem_of_map_to_list in Hin.
Qed.

(** Writing back the marked copies of the unsynced records sets the flag
    of every record and changes nothing else. *)
Lemma replay_marks_all store :
  inline_keys store ->
  fold_left put
    (List.map mark_synced
       (List.filter (fun f => negb (synced f)) (getAll store))) store
  = mark_synced <$> store.
Proof.
  intros Hkeys. apply map_eq. intros k. rewrite lookup_fmap.
  destruct (store !! k) as [f|] eqn:Ek; simpl.
  - destruct (synced f) eqn:Es.
    + rewrite fold_put_other, Ek; [now rewrite mark_synced_fixed|].
      rewrite List.map_map. intros Hin.
      apply List.in_map_iff in Hin as (g & Hid & Hg).
      apply List.filter_In in Hg as [Hg Hgs].
      apply in_getAll in Hg as (k' & Hk').
      rewrite id_mark_synced, (Hkeys _ _ Hk') in Hid. subst k'.
      rewrite Ek in Hk'. injection Hk' as ->. rewrite Es in Hgs. discriminate.
    + rewrite <- (Hkeys _ _ Ek), <- (id_mark_synced f).
      apply fold_put_found; [now apply unsynced_ids_nodup|].
      apply List.in_map. apply List.filter_In. split.
      * apply in_getAll. now exists k.
      * now rewrite Es.
  - rewrite fold_put_other, Ek; [reflexivity|].
    rewrite List.map_map. intros Hin.
    apply List.in_map_iff in Hin as (g & Hid & Hg).
    apply List.filter_In in Hg as [Hg _].
    apply in_getAll in Hg as (k' & Hk').
    rewrite id_mark_synced, (Hkeys _ _ Hk') in Hid. subst k'. congruence.
Qed.

Lemma nothing_unsynced store :
  (forall k f, store !! k = Some f -> synced f = true) ->
  List.filter (fun f => negb (synced f)) (getAll store) = [].
Proof.
  intros Hall.
  destruct (List.filter (fun f => negb (synced f)) (getAll store)) as [|g rest] eqn:E;
    [reflexivity|].
  assert (In g (List.filter (fun f => negb (synced f)) (getAll store))) as Hin
    by (rewrite E; now left).
  apply List.filter_In in Hin as [Hin Hs].
  apply in_getAll in Hin as (k & Hk). rewrite (Hall _ _ Hk) in Hs. discriminate.
Qed.

(** C9.  Only the tag [sync-stories] starts a replay: with any other tag
    the handler waits for nothing, writes nothing and leaves the queue as
    it is.  A replay over a queue with no unsynced record resolves without
    a single put.  A replay over a queue in general resolves, issues one
    put per unsynced record (the record with its flag set), and leaves a
    queue in which every record has its flag set and is otherwise as
    before; a record that was synced already is not changed at all. *)
Theorem sync_replay_marks_unsynced (store : gmap string Favorite) :
  inline_keys store ->
  (forall event_tag db,
     event_tag <> "sync-stories" ->
     on_sync event_tag db
     = {| waitUntil := None; queue_after := db; puts_issued := [] |})
  /\ ((forall k f, store !! k = Some f -> synced f = true) ->
      on_sync "sync-stories" (Some store)
      = {| waitUntil := Some (Resolved tt);
           queue_after := Some store; puts_issued := [] |})
  /\ (waitUntil (on_sync "sync-stories" (Some store)) = Some (Resolved tt)
      /\ puts_issued (on_sync "sync-stories" (Some store))
         = List.map mark_synced
             (List.filter (fun f => negb (synced f)) (getAll store))
      /\ queue_after (on_sync "sync-stories" (Some store))
         = Some (mark_synced <$> store)
      /\ (forall k f, store !! k = Some f ->
            (mark_synced <$> store) !! k
            = Some {| id := id f; story := story f; synced := true |})
      /\ (forall k f, store !! k = Some f -> synced f = true ->
            (mark_synced <$> store) !! k = Some f)
      /\ (forall k, store !! k = None -> (mark_synced <$> store) !! k = None)).
Proof.
  intros Hkeys. split; [|split].
  - intros event_tag db Hne. unfold on_sync.
    apply String.eqb_neq in Hne. now rewrite Hne.
  - intros Hall. unfold on_sync, syncStories. simpl.
    now rewrite (nothing_unsynced _ Hall).
  - unfold on_sync, syncStories. simpl.
    destruct (List.filter (fun f => negb (synced f)) (getAll store))
      as [|g rest] eqn:E; simpl.
    + repeat split.
      * f_equal. rewrite <- (replay_marks_all _ Hkeys), E. reflexivity.
      * intros k f Hk. now rewrite lookup_fmap, Hk.
      * intros k f Hk Hs. now rewrite lookup_fmap, Hk, <- (mark_synced_fixed f Hs).
      * intros k Hk. now rewrite lookup_fmap, Hk.
    + repeat split.
      * f_equal. rewrite <- (replay_marks_all _ Hkeys), E. reflexivity.
      * intros k f Hk. now rewrite lookup_fmap, Hk.
      * intros k f Hk Hs. now rewrite lookup_fmap, Hk, <- (mark_synced_fixed f Hs).
      * intros k Hk. now rewrite lookup_fmap, Hk.
Qed.

End SyncFacts.

(* ===================================================================== *)
(** ** The theorems at the sample inputs *)
(* ===================================================================== *)

Section Instances.
Import Json Http CacheStorage Worker Samples.

(** The models at work on small inputs. *)

Example origin_of_api_url :
  origin "https://story-api.dicoding.dev/v1/stories?page=1" = API_ORIGIN.
Proof. reflexivity. Qed.

Example origin_with_port :
  origin "http://localhost:8080/index.html" = "http://localhost:8080".
Proof. reflexivity. Qed.

Example parse_nested :
  JSON_parse (dq " {'a': [1, -2.5e3, null, true], 'b': 'x\ny', 'a': {}} ")
  = Some (JObj [("a", JArr [JNum 1 0; JNum (-25) 2; JNull; JBool true]);
                ("b", JStr ("x" ++ String (chr 10) "y"));
                ("a", JObj [])]).
Proof. vm_compute. reflexivity. Qed.

Example parse_rejects_text : JSON_parse "Halo dunia" = None.
Proof. vm_compute. reflexivity. Qed.

Example parse_rejects_trailing_comma : JSON_parse (dq "{'a':1,}") = None.
Proof. vm_compute. reflexivity. Qed.

Example stringify_offline_body :
  body offline_response
  = dq "{'error':true,'message':'Offline - Data tidak tersedia'}".
Proof. vm_compute. reflexivity. Qed.

(** A request that is not a GET is left to the browser. *)
Example post_passes_through :
  on_fetch offline warm {| method := "POST"; url := url api_request |}
  = {| respondWith := None; fetch_caches := warm; network_calls := [] |}.
Proof. reflexivity. Qed.

(** A static request that misses the caches while the network is down
    rejects. *)
Example static_miss_offline_rejects :
  respondWith (on_fetch offline [] page_request) = Some Rejected.
Proof. vm_compute. reflexivity. Qed.

(** Text that is not JSON becomes the body. *)
Example push_plain_text :
  o_body (shown_options (on_push 0 (Some "Halo dunia"))) = JStr "Halo dunia"
  /\ shown_title (on_push 0 (Some "Halo dunia")) = JStr "Cerita Baru".
Proof. vm_compute. split; reflexivity. Qed.

(** The payload [null] is JSON, but reading its [title] throws, and the
    text of the payload becomes the body. *)
Example push_null_payload :
  JSON_parse "null" = Some JNull
  /\ o_body (shown_options (on_push 0 (Some "null"))) = JStr "null".
Proof. vm_compute. split; reflexivity. Qed.

(** [message] stands in for a missing [body]. *)
Example push_message_field :
  o_body (shown_options (on_push 0 (Some (dq "{'message':'Baru!'}"))))
  = JStr "Baru!".
Proof. vm_compute. reflexivity. Qed.



(** Offline and with empty caches, the API request gets the JSON error. *)
Lemma api_offline_is_structured_witness :
  exists r,
    respondWith (on_fetch offline [] api_request) = Some (Resolved r)
    /\ JSON_parse (body r)
       = Some (JObj [("error", JBool true);
                     ("message", JStr "Offline - Data tidak tersedia")]).
Proof.
  apply (api_offline_is_structured offline [] api_request); reflexivity.
Defined.

(** A cached stylesheet is served without the network. *)
Lemma static_hit_no_network_witness :
  respondWith (on_fetch offline warm page_request) = Some (Resolved stylesheet)
  /\ network_calls (on_fetch offline warm page_request) = []
  /\ fetch_caches (on_fetch offline warm page_request) = warm.
Proof.
  apply (static_hit_no_network offline warm page_request stylesheet).
  - reflexivity.
  - vm_compute. discriminate.
  - reflexivity.
Defined.


(** Activation over the caches of two deployments. *)
Lemma activate_cleans_and_is_idempotent_witness :
  has (on_activate two_versions) "storymap-static-v0" = false
  /\ has (on_activate two_versions) CACHE_NAME = false
  /\ entries (on_activate two_versions) STATIC_CACHE
     = [(url page_request, stylesheet)]
  /\ entries (on_activate two_versions) DYNAMIC_CACHE
     = [(url api_request, older_stories)]
  /\ on_activate (on_activate two_versions) = on_activate two_versions.
Proof.
  destruct (activate_cleans_and_is_idempotent two_versions) as (Hdel & Hkeep & Hidem).
  split; [apply Hdel; vm_compute; discriminate|].
  split; [apply Hdel; vm_compute; discriminate|].
  split; [apply (Hkeep STATIC_CACHE); now left|].
  split; [apply (Hkeep DYNAMIC_CACHE); now right|].
  exact Hidem.
Defined.

(** With the script missing, installation rejects and the new static
    cache stays empty; with the quota used up, it rejects and the caches
    are as they were; with every asset served, it resolves. *)
Lemma install_all_or_nothing_witness :
  (install_promise (on_install script_missing roomy "https://storymap.example" [])
   = Rejected
   /\ install_caches (on_install script_missing roomy "https://storymap.example" [])
      = [(STATIC_CACHE, [])])
  /\ (install_promise (on_install serving full "https://storymap.example" warm)
      = Rejected
      /\ install_caches (on_install serving full "https://storymap.example" warm)
         = warm)
  /\ install_promise (on_install serving roomy "https://storymap.example" [])
     = Resolved tt.
Proof.
  destruct (install_all_or_nothing script_missing roomy
              "https://storymap.example" []) as [Hmissing _].
  destruct (install_all_or_nothing serving full
              "https://storymap.example" warm) as [Hfull _].
  destruct (install_all_or_nothing serving roomy
              "https://storymap.example" []) as [_ Hserved].
  split; [|split].
  - destruct Hmissing as (Hp & Hc & _); [|now split].
    exists "/main.js". split; [vm_compute; tauto|].
    intros (r & Hr & _). vm_compute in Hr. discriminate.
  - destruct Hfull as (Hp & Hc & _); [|now split].
    exists "/". split; [vm_compute; tauto|].
    intros (r & _ & _ & _ & Hst). discriminate.
  - apply Hserved. intros path _. exists stylesheet.
    repeat split. vm_compute. discriminate.
Defined.

(** The payload [{"title":"T","body":"B"}]. *)
Lemma push_shows_notification_witness :
  shown_title (on_push 0 (Some story_push)) = JStr "T"
  /\ o_body (shown_options (on_push 0 (Some story_push))) = JStr "B"
  /\ o_icon (shown_options (on_push 0 (Some story_push))) = JStr "/favicon.png"
  /\ o_badge (shown_options (on_push 0 (Some story_push))) = JStr "/favicon.png".
Proof.
  destruct (push_shows_notification 0) as (Hobj & _).
  apply (Hobj story_push [("title", JStr "T"); ("body", JStr "B")] "T" "B");
    try reflexivity; discriminate.
Defined.

(** C8 as stated fails: an empty payload does not decode as JSON, and it is
    not used as the body; the default body is shown. *)
Lemma push_empty_payload_not_the_body :
  JSON_parse EmptyString = None
  /\ o_body (shown_options (on_push 0 (Some EmptyString)))
     = JStr "Ada cerita baru yang ditambahkan!"
  /\ o_body (shown_options (on_push 0 (Some EmptyString))) <> JStr EmptyString.
Proof.
  repeat split. vm_compute. discriminate.
Defined.

(** The sample queues keep each record under its own id. *)
Ltac inline_keys_by_lookup :=
  let H := fresh "H" in
  intros ? ? H;
  repeat (apply lookup_insert_Some in H as [[<- <-]|[_ H]]; [reflexivity|]);
  rewrite lookup_empty in H; discriminate.

(** A replay over a queue of three records, two of them unsynced; a replay
    over a queue with nothing unsynced; and a tag that is not recognised. *)
Lemma sync_replay_marks_unsynced_witness :
  inline_keys favorites
  /\ waitUntil (on_sync "sync-stories" (Some favorites)) = Some (Resolved tt)
  /\ length (puts_issued (on_sync "sync-stories" (Some favorites))) = 2%nat
  /\ queue_after (on_sync "sync-stories" (Some favorites))
     = Some (mark_synced <$> favorites)
  /\ on_sync "periodic-refresh" (Some favorites)
     = {| waitUntil := None; queue_after := Some favorites; puts_issued := [] |}
  /\ on_sync "sync-stories" (Some replayed)
     = {| waitUntil := Some (Resolved tt);
          queue_after := Some replayed; puts_issued := [] |}.
Proof.
  assert (inline_keys favorites) as Hf by (unfold favorites; inline_keys_by_lookup).
  assert (inline_keys replayed) as Hr by (unfold replayed; inline_keys_by_lookup).
  destruct (sync_replay_marks_unsynced favorites Hf)
    as (Htag & _ & Hw & Hp & Hq & _).
  destruct (sync_replay_marks_unsynced replayed Hr) as (_ & Hzero & _).
  split; [exact Hf|].
  split; [exact Hw|]. split; [rewrite Hp; vm_compute; reflexivity|].
  split; [exact Hq|]. split; [apply Htag; discriminate|].
  apply Hzero. intros k f H. unfold replayed in H.
  apply lookup_insert_Some in H as [[_ <-]|[_ H]]; [reflexivity|].
  rewrite lookup_empty in H. discriminate.
Defined.

End Instances.

(* ===================================================================== *)
(** ** The fetch handler over time *)
(* ===================================================================== *)

Section FetchFrames.
Import Json Http CacheStorage Worker.

Lemma has_open_mono cs name n : has cs n = true -> has (open cs name) n = true.
Proof.
  intros H. unfold open. destruct (has cs name); [exact H|].
  rewrite has_app, H. reflexivity.
Qed.

Lemma has_open_put cs name req r n :
  has cs n = true -> has (open_put cs name req r) n = true.
Proof.
  intros H. unfold open_put. rewrite has_update. now apply has_open_mono.
Qed.

Lemma entries_open_put_other cs name req r n :
  name <> n -> entries (open_put cs name req r) n = entries cs n.
Proof.
  intros Hne. unfold open_put.
  rewrite entries_update_other by exact Hne. apply entries_open.
Qed.

Lemma match_open_put_other cs name req r n q :
  url req <> url q ->
  cache_match (entries (open_put cs name req r) n) q
  = cache_match (entries cs n) q.
Proof.
  intros Hne. destruct (String.eqb name n) eqn:E.
  - apply String.eqb_eq in E. subst n. unfold open_put, cache_put.
    rewrite entries_update by apply has_open.
    destruct (status r =? 206); simpl; [now rewrite entries_open|].
    rewrite cache_match_put_other by exact Hne. now rewrite entries_open.
  - apply String.eqb_neq in E. now rewrite entries_open_put_other.
Qed.

(** The three shapes the cache storage can have after a fetch event. *)
Lemma fetch_caches_cases (net : Network) (cs : Caches) (request : Request) :
  fetch_caches (on_fetch net cs request) = cs
  \/ (origin (url request) = API_ORIGIN
      /\ exists r, net request = Some r
           /\ fetch_caches (on_fetch net cs request)
              = open_put cs DYNAMIC_CACHE request r)
  \/ (origin (url request) <> API_ORIGIN
      /\ exists r, net request = Some r
           /\ status r = 200 /\ type r = Basic
           /\ fetch_caches (on_fetch net cs request)
              = open_put cs STATIC_CACHE request r).
Proof.
  unfold on_fetch.
  destruct (negb (String.eqb (method request) "GET")); [now left|].
  destruct (String.eqb (origin (url request)) API_ORIGIN) eqn:Eo.
  - apply String.eqb_eq in Eo.
    destruct (net request) as [r|] eqn:En.
    + right. left. split; [exact Eo|]. exists r. now split.
    + destruct (caches_match cs request); now left.
  - apply String.eqb_neq in Eo.
    destruct (caches_match cs request); [now left|].
    destruct (net request) as [r|] eqn:En; [|now left].
    destruct (status r =? 200) eqn:Es; simpl; [|now left].
    destruct (String.eqb (type_name (type r)) "basic") eqn:Et; simpl; [|now left].
    right. right. split; [exact Eo|]. exists r.
    apply Z.eqb_eq in Es. apply type_name_basic in Et. now repeat split.
Qed.

(** X1.  A fetch event never removes a cache and never touches what any
    cache holds for another URL. *)
Theorem fetch_keeps_other_entries
    (net : Network) (cs : Caches) (request other : Request) (n : string) :
  url request <> url other ->
  cache_match (entries (fetch_caches (on_fetch net cs request)) n) other
  = cache_match (entries cs n) other
  /\ (has cs n = true -> has (fetch_caches (on_fetch net cs request)) n = true).
Proof.
  intros Hne.
  destruct (fetch_caches_cases net cs request)
    as [-> | [(_ & r & _ & ->) | (_ & r & _ & _ & _ & ->)]].
  - split; [reflexivity | tauto].
  - split; [now apply match_open_put_other | apply has_open_put].
  - split; [now apply match_open_put_other | apply has_open_put].
Qed.

(** X2.  A fetch event writes to one cache at most, chosen by the route:
    a request to the API origin leaves the entries of every cache but the
    dynamic one as they were, any other request those of every cache but
    the static one; and whatever is written to the static cache has status
    200 and type [basic]. *)
Theorem fetch_writes_to_its_route
    (net : Network) (cs : Caches) (request : Request) (n : string) :
  (origin (url request) = API_ORIGIN -> n <> DYNAMIC_CACHE ->
     entries (fetch_caches (on_fetch net cs request)) n = entries cs n)
  /\ (origin (url request) <> API_ORIGIN -> n <> STATIC_CACHE ->
        entries (fetch_caches (on_fetch net cs request)) n = entries cs n)
  /\ (entries (fetch_caches (on_fetch net cs request)) STATIC_CACHE
        <> entries cs STATIC_CACHE ->
      exists r, net request = Some r /\ status r = 200 /\ type r = Basic).
Proof.
  destruct (fetch_caches_cases net cs request)
    as [-> | [(Ho & r & Hn & ->) | (Ho & r & Hn & Hs & Ht & ->)]].
  - repeat split; try reflexivity. intros H. now contradiction H.
  - split; [|split].
    + intros _ Hne. apply entries_open_put_other. congruence.
    + intros Hno. contradiction.
    + intros H. exfalso. apply H. apply entries_open_put_other.
      intros E. discriminate E.
  - split; [|split].
    + intros Hyes. contradiction.
    + intros _ Hne. apply entries_open_put_other. congruence.
    + intros _. exists r. now repeat split.
Qed.

(** X3.  The handler answers exactly the GET requests: it calls
    [respondWith] if and only if the method is GET, and a request with any
    other method causes no network call and no cache write. *)
Theorem fetch_answers_exactly_get
    (net : Network) (cs : Caches) (request : Request) :
  (respondWith (on_fetch net cs request) <> None <-> method request = "GET")
  /\ (method request <> "GET" ->
      network_calls (on_fetch net cs request) = []
      /\ fetch_caches (on_fetch net cs request) = cs).
Proof.
  unfold on_fetch. destruct (String.eqb (method request) "GET") eqn:Em; simpl.
  - apply String.eqb_eq in Em. split; [|intros H; contradiction].
    split; [intros _; exact Em|]. intros _.
    destruct (String.eqb (origin (url request)) API_ORIGIN).
    + destruct (net request); [discriminate|].
      destruct (caches_match cs request); discriminate.
    + destruct (caches_match cs request); [discriminate|].
      destruct (net request) as [r|]; [|discriminate].
      destruct (negb (status r =? 200)
                || negb (String.eqb (type_name (type r)) "basic")); discriminate.
  - apply String.eqb_neq in Em. split; [|intros _; now split].
    split; [intros H; now contradiction H | intros H; contradiction].
Qed.







(** X6.  A response that is not cached is asked for again: after a miss
    answered with a status other than 200 or a type other than [basic], the
    next fetch event for the request goes to the network again and is
    answered with what the network says then. *)
Theorem static_invalid_answer_is_refetched
    (first later : Network) (cs : Caches) (request : Request)
    (response again : Response) :
  method request = "GET" ->
  origin (url request) <> API_ORIGIN ->
  caches_match cs request = None ->
  first request = Some response ->
  status response <> 200 \/ type response <> Basic ->
  later request = Some again ->
  respondWith
    (on_fetch later (fetch_caches (on_fetch first cs request)) request)
  = Some (Resolved again)
  /\ network_calls
       (on_fetch later (fetch_caches (on_fetch first cs request)) request)
     = [request].
Proof.
  intros Hm Ho Hmiss Hfirst Hbad Hlater.
  assert (fetch_caches (on_fetch first cs request) = cs) as ->.
  { rewrite (on_fetch_static first cs request Hm Ho), Hmiss, Hfirst. simpl.
    destruct (status response =? 200) eqn:Es; [|reflexivity].
    destruct (String.eqb (type_name (type response)) "basic") eqn:Et; [|reflexivity].
    apply Z.eqb_eq in Es. apply type_name_basic in Et. tauto. }
  rewrite (on_fetch_static later cs request Hm Ho), Hmiss, Hlater. now split.
Qed.

End FetchFrames.

(* ===================================================================== *)
(** ** The life cycle: install, activate, fetch *)
(* ===================================================================== *)

Section LifeCycle.
Import Json Http CacheStorage Worker.

Lemma entries_put_all_other cs name pairs n :
  name <> n -> entries (put_all cs name pairs) n = entries cs n.
Proof.
  intros Hne. induction pairs as [|p pairs IH] using List.rev_ind; [reflexivity|].
  now rewrite put_all_snoc, entries_update_other.
Qed.

Lemma batch_put_shape (storable : Storable) cs name pairs :
  exists written done,
    batch_put storable cs name pairs = (done, put_all cs name written).
Proof.
  revert cs. induction pairs as [|p pairs IH]; intros cs.
  - now exists [], true.
  - simpl. destruct (storable (fst p) (snd p)).
    + destruct (IH (update cs name (fun c => put_entry c (fst p) (snd p))))
        as (written & done & Hw).
      exists (p :: written), done. exact Hw.
    + now exists [], false.
Qed.

(** The caches after the install step, whichever way it ends. *)
Lemma install_caches_shape (net : Network) (storable : Storable)
    (location_origin : string) (cs : Caches) :
  exists pairs,
    install_caches (on_install net storable location_origin cs)
    = put_all (open cs STATIC_CACHE) STATIC_CACHE pairs.
Proof.
  unfold on_install, addAll.
  destruct (fetch_all net (List.map (asset_request location_origin) STATIC_ASSETS))
    as [pairs|]; [|now exists []].
  destruct (batch_put_shape storable (open cs STATIC_CACHE) STATIC_CACHE pairs)
    as (written & done & ->).
  destruct done; simpl; [now exists written|].
  exists []. apply put_all_restore.
Qed.

(** X7.  Installation works on the static cache only: whether it succeeds
    or fails, every other cache keeps its entries and no cache is
    removed. *)
Theorem install_keeps_other_caches
    (net : Network) (storable : Storable) (location_origin : string)
    (cs : Caches) (n : string) :
  (n <> STATIC_CACHE ->
     entries (install_caches (on_install net storable location_origin cs)) n
     = entries cs n)
  /\ (has cs n = true ->
      has (install_caches (on_install net storable location_origin cs)) n = true).
Proof.
  destruct (install_caches_shape net storable location_origin cs) as (pairs & ->).
  split.
  - intros Hne. rewrite entries_put_all_other by congruence. apply entries_open.
  - intros H. rewrite has_put_all. now apply has_open_mono.
Qed.

(** What a successful install leaves in the static cache. *)
Lemma install_success_entries (net : Network) (storable : Storable)
    (location_origin : string) (cs : Caches) :
  (forall path, In path STATIC_ASSETS ->
     served net storable (asset_request location_origin path)) ->
  forall path, In path STATIC_ASSETS ->
    cache_match
      (entries (install_caches (on_install net storable location_origin cs))
         STATIC_CACHE)
      (asset_request location_origin path)
    = net (asset_request location_origin path).
Proof.
  intros Hall path Hin.
  destruct (install_success net storable location_origin cs Hall)
    as (pairs & Hp & ->). simpl.
  destruct (fetch_all_some _ _ _ Hp) as [Hm Hn].
  assert (In (asset_request location_origin path) (List.map fst pairs)) as Hreq.
  { rewrite Hm. now apply List.in_map. }
  apply List.in_map_iff in Hreq as (p & Hfst & Hpin).
  destruct (Hn p Hpin) as [Hnp _]. rewrite <- Hfst, Hnp.
  apply put_all_found; [apply has_open | | exact Hpin].
  exact (shell_pairs_functional _ _ _ _ Hp).
Qed.

Lemma Forall_update (P : string * Cache -> Prop) cs name f :
  (forall c, P (name, c)) -> Forall P cs -> Forall P (update cs name f).
Proof.
  intros Hname. induction cs as [|[n c] cs IH]; intros Hall; [constructor|].
  apply Forall_cons_iff in Hall as [Hhead Hall]. simpl.
  destruct (String.eqb n name) eqn:E.
  - apply String.eqb_eq in E. subst n. constructor; [apply Hname | exact Hall].
  - constructor; [exact Hhead | now apply IH].
Qed.

Lemma Forall_open (P : string * Cache -> Prop) cs name :
  P (name, []) -> Forall P cs -> Forall P (open cs name).
Proof.
  intros Hname Hall. unfold open. destruct (has cs name); [exact Hall|].
  apply Forall_app. split; [exact Hall|]. now constructor.
Qed.

Lemma Forall_put_all (P : string * Cache -> Prop) cs name pairs :
  (forall c, P (name, c)) -> Forall P cs -> Forall P (put_all cs name pairs).
Proof.
  intros Hname Hall.
  induction pairs as [|p pairs IH] using List.rev_ind; [exact Hall|].
  rewrite put_all_snoc. now apply Forall_update.
Qed.

(** When the caches of other names miss a request, what the cache called
    [name] holds for it is what [caches.match] finds. *)
Lemma caches_match_entries cs name req r :
  Forall (fun e => fst e <> name -> cache_match (snd e) req = None) cs ->
  cache_match (entries cs name) req = Some r ->
  caches_match cs req = Some r.
Proof.
  induction cs as [|[n c] cs IH]; intros Hall Hfound; [discriminate|].
  apply Forall_cons_iff in Hall as [Hhead Hall]. simpl in *.
  destruct (String.eqb n name) eqn:E.
  - now rewrite Hfound.
  - rewrite Hhead by now apply String.eqb_neq. now apply IH.
Qed.

Lemma caches_match_filter_none (keep : string -> bool) cs req :
  Forall (fun e => keep (fst e) = true -> cache_match (snd e) req = None) cs ->
  caches_match (List.filter (fun e => keep (fst e)) cs) req = None.
Proof.
  induction cs as [|[n c] cs IH]; intros Hall; [reflexivity|].
  apply Forall_cons_iff in Hall as [Hhead Hall]. simpl in *.
  destruct (keep n) eqn:Ek; simpl; [|now apply IH].
  rewrite Hhead by reflexivity. now apply IH.
Qed.

Lemma Forall_filter_kept (P : string * Cache -> Prop) (keep : string -> bool) cs :
  Forall P cs -> Forall P (List.filter (fun e => keep (fst e)) cs).
Proof.
  intros Hall. apply List.Forall_forall. intros e He.
  apply List.filter_In in He as [He _].
  rewrite List.Forall_forall in Hall. now apply Hall.
Qed.

(** X8.  After a successful install (every listed asset answered with an
    [ok] status other than 206 and stored) and the activation that follows,
    the shell is served without the network: if the dynamic cache holds
    nothing for a listed asset, a fetch event for that asset is answered
    with the response fetched at install time and makes no network call,
    whatever the state of the network. *)
Theorem installed_shell_served_offline
    (net later : Network) (storable : Storable) (location_origin : string)
    (cs : Caches) (path : string) :
  (forall p, In p STATIC_ASSETS -> served net storable (asset_request location_origin p)) ->
  In path STATIC_ASSETS ->
  origin (location_origin ++ path) <> API_ORIGIN ->
  Forall (fun e => fst e = DYNAMIC_CACHE ->
                   cache_match (snd e) (asset_request location_origin path) = None)
    cs ->
  exists r,
    net (asset_request location_origin path) = Some r
    /\ respondWith
         (on_fetch later
            (on_activate (install_caches (on_install net storable location_origin cs)))
            (asset_request location_origin path))
       = Some (Resolved r)
    /\ network_calls
         (on_fetch later
            (on_activate (install_caches (on_install net storable location_origin cs)))
            (asset_request location_origin path))
       = [].
Proof.
  intros Hall Hin Ho Hdyn.
  destruct (Hall path Hin) as (r & Hr & _). exists r. split; [exact Hr|].
  pose proof (install_success_entries net storable location_origin cs Hall path Hin) as Hs.
  rewrite Hr in Hs.
  destruct (install_caches_shape net storable location_origin cs) as (pairs & Hshape).
  rewrite Hshape in *. rewrite on_activate_filter.
  rewrite (on_fetch_static later _ (asset_request location_origin path)
             eq_refl Ho).
  erewrite caches_match_entries; [now split | |].
  - apply List.Forall_forall. intros [n c] He Hne. simpl in *.
    apply List.filter_In in He as [He Hkeep]. simpl in Hkeep.
    apply negb_true_iff, is_old_spec in Hkeep as [-> | ->]; [contradiction|].
    assert (Forall
              (fun e => fst e = DYNAMIC_CACHE ->
                        cache_match (snd e) (asset_request location_origin path)
                        = None)
              (put_all (open cs STATIC_CACHE) STATIC_CACHE pairs)) as Hall'.
    { apply Forall_put_all; [intros c' E; discriminate E|].
      apply Forall_open; [intros E; discriminate E | exact Hdyn]. }
    rewrite List.Forall_forall in Hall'. now apply (Hall' _ He).
  - rewrite (entries_filter_kept (fun m => negb (is_old m))); [exact Hs|].
    reflexivity.
Qed.

(** X9.  Activation cuts off what only old caches hold: if the caches
    named as the static or the dynamic cache have nothing for an API
    request, then after activation a fetch event for it with the network
    down gets the offline response, whatever the deleted caches held. *)
Theorem activation_drops_old_answers
    (net : Network) (cs : Caches) (request : Request) :
  method request = "GET" ->
  origin (url request) = API_ORIGIN ->
  net request = None ->
  Forall (fun e => fst e = STATIC_CACHE \/ fst e = DYNAMIC_CACHE ->
                   cache_match (snd e) request = None) cs ->
  respondWith (on_fetch net (on_activate cs) request)
  = Some (Resolved offline_response).
Proof.
  intros Hm Ho Hn Hall.
  rewrite (on_fetch_api net _ request Hm Ho), Hn, on_activate_filter.
  rewrite (caches_match_filter_none (fun m => negb (is_old m))); [reflexivity|].
  eapply List.Forall_impl; [|exact Hall].
  intros e He Hkeep. apply He. now apply is_old_spec, negb_true_iff.
Qed.

Lemma keys_filter (keep : string -> bool) (cs : Caches) :
  keys (List.filter (fun e => keep (fst e)) cs) = List.filter keep (keys cs).
Proof.
  induction cs as [|[n c] cs IH]; [reflexivity|]. simpl.
  destruct (keep n); simpl; now rewrite IH.
Qed.

(** X10.  Activation adds nothing and keeps the order: the names left are
    the static and dynamic names among the names there were, in the order
    they had; so a cache storage whose names are distinct holds at most
    two caches once activated. *)
Theorem activation_leaves_at_most_two (cs : Caches) :
  keys (on_activate cs)
  = List.filter (fun n => negb (is_old n)) (keys cs)
  /\ (List.NoDup (keys cs) -> (length (on_activate cs) <= 2)%nat).
Proof.
  rewrite on_activate_filter.
  rewrite (keys_filter (fun n => negb (is_old n))). split; [reflexivity|].
  intros Hnd.
  rewrite <- (List.length_map fst).
  change (List.map fst (List.filter (fun e => negb (is_old (fst e))) cs))
    with (keys (List.filter (fun e => negb (is_old (fst e))) cs)).
  rewrite (keys_filter (fun n => negb (is_old n))).
  apply (List.NoDup_incl_length (l' := [STATIC_CACHE; DYNAMIC_CACHE])).
  - now apply List.NoDup_filter.
  - intros n Hn. apply List.filter_In in Hn as [_ Hn].
    apply negb_true_iff, is_old_spec in Hn as [-> | ->]; simpl; tauto.
Qed.

End LifeCycle.

(* ===================================================================== *)
(** ** The caches the worker reaches *)
(* ===================================================================== *)

Section Reachability.
Import Json Http CacheStorage Worker.

Variable location_origin : string.

(** The worker is not served from the API origin. *)
Hypothesis shell_not_api :
  forall path, In path STATIC_ASSETS ->
    origin (location_origin ++ path) <> API_ORIGIN.

Lemma no_api_key_put c req r :
  origin (url req) <> API_ORIGIN -> no_api_key c -> no_api_key (put_entry c req r).
Proof.
  intros Ho Hc. unfold no_api_key, put_entry. apply Forall_app. split.
  - apply List.Forall_forall. intros kv Hkv.
    apply List.filter_In in Hkv as [Hkv _].
    unfold no_api_key in Hc. rewrite List.Forall_forall in Hc. now apply Hc.
  - now repeat constructor.
Qed.

(** A cache without API keys has nothing for a request to the API. *)
Lemma no_api_key_miss c req :
  origin (url req) = API_ORIGIN -> no_api_key c -> cache_match c req = None.
Proof.
  intros Ho. induction c as [|[k r] c IH]; intros Hc; [reflexivity|].
  apply Forall_cons_iff in Hc as [Hk Hc]. simpl in *.
  destruct (String.eqb k (url req)) eqn:E; [|now apply IH].
  apply String.eqb_eq in E. subst k. contradiction.
Qed.

Lemma apart_update cs name (f : Cache -> Cache) :
  (name <> DYNAMIC_CACHE -> forall c, no_api_key c -> no_api_key (f c)) ->
  api_in_dynamic_only cs -> api_in_dynamic_only (update cs name f).
Proof.
  intros Hf. unfold api_in_dynamic_only.
  induction cs as [|[n c] cs IH]; intros Hall; [constructor|].
  apply Forall_cons_iff in Hall as [Hhead Hall]. simpl in *.
  destruct (String.eqb n name) eqn:E.
  - apply String.eqb_eq in E. subst n. constructor; [|exact Hall].
    simpl. intros Hne. apply Hf; [exact Hne | now apply Hhead].
  - constructor; [exact Hhead | now apply IH].
Qed.

Lemma apart_open cs name : api_in_dynamic_only cs -> api_in_dynamic_only (open cs name).
Proof.
  intros Hall. unfold open. destruct (has cs name); [exact Hall|].
  apply Forall_app. split; [exact Hall|].
  constructor; [|constructor]. intros _. constructor.
Qed.

Lemma apart_put_all cs name pairs :
  (forall p, In p pairs -> origin (url (fst p)) <> API_ORIGIN) ->
  api_in_dynamic_only cs -> api_in_dynamic_only (put_all cs name pairs).
Proof.
  intros Hkeys Hall.
  induction pairs as [|p pairs IH] using List.rev_ind; [exact Hall|].
  rewrite put_all_snoc. apply apart_update.
  - intros _ c Hc. apply no_api_key_put; [|exact Hc].
    apply Hkeys. apply List.in_or_app. right. now left.
  - apply IH. intros q Hq. apply Hkeys. apply List.in_or_app. now left.
Qed.

(** The two ways the install step can leave the caches. *)
Lemma install_outcomes (net : Network) (storable : Storable) (cs : Caches) :
  install_caches (on_install net storable location_origin cs)
  = open cs STATIC_CACHE
  \/ exists pairs,
       fetch_all net (List.map (asset_request location_origin) STATIC_ASSETS)
       = Some pairs
       /\ install_caches (on_install net storable location_origin cs)
          = put_all (open cs STATIC_CACHE) STATIC_CACHE pairs.
Proof.
  unfold on_install, addAll.
  destruct (fetch_all net (List.map (asset_request location_origin) STATIC_ASSETS))
    as [pairs|] eqn:Hp; [|now left].
  destruct (List.forallb (fun p => storable (fst p) (snd p)) pairs) eqn:Ef.
  - right. exists pairs. split; [reflexivity|].
    rewrite batch_put_all; [reflexivity|].
    intros p Hin. rewrite List.forallb_forall in Ef. now apply Ef.
  - left.
    destruct (batch_put_stops storable (open cs STATIC_CACHE) STATIC_CACHE pairs)
      as (written & ->).
    + apply not_true_iff_false in Ef.
      destruct (List.existsb (fun p => negb (storable (fst p) (snd p))) pairs)
        eqn:Ee.
      * apply List.existsb_exists in Ee as (p & Hin & Hp').
        exists p. split; [exact Hin | now apply negb_true_iff].
      * exfalso. apply Ef. apply List.forallb_forall. intros p Hin.
        destruct (storable (fst p) (snd p)) eqn:Es; [reflexivity|].
        assert (List.existsb (fun p => negb (storable (fst p) (snd p))) pairs
                = true) as Hex.
        { apply List.existsb_exists. exists p. split; [exact Hin|].
          now rewrite Es. }
        congruence.
    + simpl. apply put_all_restore.
Qed.

(** Every cache storage the worker reaches keeps the requests to the API
    origin in the dynamic cache. *)
Lemma reachable_api_in_dynamic_only (cs : Caches) :
  reachable location_origin cs -> api_in_dynamic_only cs.
Proof.
  induction 1 as [|net storable cs Hr IH|cs Hr IH|net cs request Hr IH].
  - constructor.
  - destruct (install_outcomes net storable cs) as [->|(pairs & Hp & ->)].
    + now apply apart_open.
    + apply apart_put_all; [|now apply apart_open].
      intros p Hin. destruct (fetch_all_some _ _ _ Hp) as [Hm _].
      assert (In (fst p) (List.map fst pairs)) as Hreq by now apply List.in_map.
      rewrite Hm in Hreq. apply List.in_map_iff in Hreq as (path & <- & Hpath).
      now apply shell_not_api.
  - rewrite on_activate_filter.
    apply (Forall_filter_kept _ (fun n => negb (is_old n))). exact IH.
  - destruct (fetch_caches_cases net cs request)
      as [-> | [(_ & r & _ & ->) | (Ho & r & _ & _ & _ & ->)]];
      [exact IH | |].
    + apply apart_update; [intros Hne; now contradiction Hne | now apply apart_open].
    + apply apart_update; [|now apply apart_open].
      intros _ c Hc. unfold cache_put.
      destruct (status r =? 206); simpl; [exact Hc | now apply no_api_key_put].
Qed.

(** C3.  On every cache storage the worker reaches, a GET request to the
    API origin whose network fetch fails and for which the dynamic cache
    holds an entry is answered with that entry as it is stored, whatever
    its age; nothing is written. *)
Theorem api_failure_serves_dynamic_entry
    (net : Network) (cs : Caches) (request : Request) (cached : Response) :
  reachable location_origin cs ->
  method request = "GET" ->
  origin (url request) = API_ORIGIN ->
  net request = None ->
  cache_match (entries cs DYNAMIC_CACHE) request = Some cached ->
  respondWith (on_fetch net cs request) = Some (Resolved cached)
  /\ fetch_caches (on_fetch net cs request) = cs
  /\ network_calls (on_fetch net cs request) = [request].
Proof.
  intros Hr Hm Ho Hn Hd.
  rewrite (on_fetch_api net cs request Hm Ho), Hn.
  rewrite (caches_match_entries cs DYNAMIC_CACHE request cached);
    [now repeat split | | exact Hd].
  eapply List.Forall_impl; [|apply (reachable_api_in_dynamic_only _ Hr)].
  intros e He Hne. simpl in He. apply no_api_key_miss; [exact Ho | now apply He].
Qed.

End Reachability.

(* ===================================================================== *)
(** ** Push payloads *)
(* ===================================================================== *)

Section PushShapes.
Import Json Worker.

Lemma js_or_truthy (a d : JsValue) : truthy d = true -> truthy (js_or a d) = true.
Proof. intros Hd. unfold js_or. destruct (truthy a) eqn:E; [exact E | exact Hd]. Qed.

Lemma js_or_falsy (a d : JsValue) : truthy a = false -> js_or a d = d.
Proof. intros H. unfold js_or. now rewrite H. Qed.

(** Whatever the [try] block builds, it builds from seven property reads
    and the defaults. *)
Lemma decode_shape (payload : string) (nd : NotificationData) :
  decode payload = Some nd ->
  exists d_title d_body d_message d_icon d_image d_tag d_data,
    nd = {| title := js_or d_title (JStr "Cerita Baru");
            n_body := js_or (js_or d_body d_message)
                        (JStr "Ada cerita baru yang ditambahkan!");
            icon := js_or d_icon (JStr "/favicon.png");
            badge := JStr "/favicon.png";
            image := js_or d_image JNull;
            tag := js_or d_tag (JStr "new-story");
            data := js_or d_data (JObj []);
            requireInteraction := false |}.
Proof.
  unfold decode. destruct (JSON_parse payload) as [d|]; [|discriminate].
  destruct d; simpl; intros H; try discriminate;
    injection H as <-; repeat eexists.
Qed.

(** A payload that parses to a value other than an object or [null] runs
    the [try] block to its end with every property read [undefined]. *)
Lemma decode_plain (payload : string) (v : JsValue) :
  JSON_parse payload = Some v -> plain_value v = true ->
  decode payload
  = Some {| title := JStr "Cerita Baru";
            n_body := JStr "Ada cerita baru yang ditambahkan!";
            icon := JStr "/favicon.png";
            badge := JStr "/favicon.png";
            image := JNull;
            tag := JStr "new-story";
            data := JObj [];
            requireInteraction := false |}.
Proof.
  intros Hp Hv. unfold decode. rewrite Hp.
  destruct v; try discriminate; reflexivity.
Qed.

Lemma decode_null (payload : string) :
  JSON_parse payload = Some JNull -> decode payload = None.
Proof. intros Hp. unfold decode. now rewrite Hp. Qed.

(** X11.  Whatever the push carries, the title, body, icon and tag of the
    notification shown are never a falsy value ([undefined], [null],
    [false], zero or the empty string), the badge is the default one and
    [requireInteraction] is false: a payload can replace the former four,
    but it can neither blank them out nor change the latter two. *)
Theorem push_fields_never_falsy (now : Z) (event_data : option string) :
  truthy (shown_title (on_push now event_data)) = true
  /\ truthy (o_body (shown_options (on_push now event_data))) = true
  /\ truthy (o_icon (shown_options (on_push now event_data))) = true
  /\ truthy (o_tag (shown_options (on_push now event_data))) = true
  /\ o_badge (shown_options (on_push now event_data)) = JStr "/favicon.png"
  /\ o_requireInteraction (shown_options (on_push now event_data)) = false.
Proof.
  unfold on_push, notification_of. destruct event_data as [payload|].
  - destruct (decode payload) as [nd|] eqn:Ed.
    + destruct (decode_shape _ _ Ed) as (t & b & m & i & im & tg & d & ->).
      cbn [shown_title shown_options o_body o_icon o_tag o_badge
           o_requireInteraction title n_body icon tag badge requireInteraction].
      repeat split; apply js_or_truthy; reflexivity.
    + destruct (truthy (JStr payload)) eqn:Et.
      * cbn [shown_title shown_options o_body o_icon o_tag o_badge
             o_requireInteraction title n_body icon tag badge requireInteraction].
        repeat split. exact Et.
      * repeat split.
  - repeat split.
Qed.

(** X12.  A payload that is JSON but neither an object nor [null] (a
    number, a string, a boolean, an array) is not used at all: the
    notification has the default title, body, icon and tag, with [null] for
    the image and an empty object for the data. *)
Theorem push_plain_json_uses_defaults (now : Z) (payload : string) (v : JsValue) :
  JSON_parse payload = Some v ->
  plain_value v = true ->
  shown_title (on_push now (Some payload)) = JStr "Cerita Baru"
  /\ o_body (shown_options (on_push now (Some payload)))
     = JStr "Ada cerita baru yang ditambahkan!"
  /\ o_icon (shown_options (on_push now (Some payload))) = JStr "/favicon.png"
  /\ o_tag (shown_options (on_push now (Some payload))) = JStr "new-story"
  /\ o_image (shown_options (on_push now (Some payload))) = JNull
  /\ o_data (shown_options (on_push now (Some payload))) = JObj [].
Proof.
  intros Hp Hv. unfold on_push, notification_of.
  rewrite (decode_plain _ _ Hp Hv). repeat split.
Qed.

Lemma parsed_not_empty (payload : string) (v : JsValue) :
  JSON_parse payload = Some v -> payload <> EmptyString.
Proof. intros Hp ->. vm_compute in Hp. discriminate. Qed.

(** X13.  A payload that is the JSON value [null] decodes, but reading
    its title throws, and the handler falls back to the text: the payload
    as sent is the body, under the default title, with no image and no
    data. *)
Theorem push_null_json_is_text (now : Z) (payload : string) :
  JSON_parse payload = Some JNull ->
  shown_title (on_push now (Some payload)) = JStr "Cerita Baru"
  /\ o_body (shown_options (on_push now (Some payload))) = JStr payload
  /\ o_image (shown_options (on_push now (Some payload))) = JUndefined
  /\ o_data (shown_options (on_push now (Some payload))) = JUndefined.
Proof.
  intros Hp. unfold on_push, notification_of. rewrite (decode_null _ Hp).
  rewrite (truthy_text _ (parsed_not_empty _ _ Hp)). repeat split.
Qed.

End PushShapes.

(* ===================================================================== *)
(** ** Clicks on a notification *)
(* ===================================================================== *)

Section ClickFacts.
Import Json Worker.

Lemma first_own_window_none (location_origin : string)
    (clientList : list WindowClient) (k : nat) :
  (forall c, In c clientList -> own_window location_origin c = false) ->
  first_own_window location_origin clientList k = None.
Proof.
  revert k. induction clientList as [|c l IH]; intros k Hall; [reflexivity|].
  simpl. rewrite (Hall c) by now left. apply IH. intros c' Hc'. apply Hall. now right.
Qed.

(** The loop stops at the first client that passes the test. *)
Lemma first_own_window_found (location_origin : string)
    (clientList : list WindowClient) (k i : nat) (client : WindowClient) :
  nth_error clientList i = Some client ->
  own_window location_origin client = true ->
  (forall j c, (j < i)%nat -> nth_error clientList j = Some c ->
               own_window location_origin c = false) ->
  first_own_window location_origin clientList k = Some ((k + i)%nat, client).
Proof.
  revert k i. induction clientList as [|c l IH]; intros k i Hnth Hown Hbefore.
  - destruct i; discriminate.
  - destruct i as [|i]; simpl in *.
    + injection Hnth as ->. rewrite Hown. now rewrite Nat.add_0_r.
    + rewrite (Hbefore 0%nat c) by (try lia; reflexivity).
      rewrite (IH (S k) i Hnth Hown).
      * f_equal. f_equal. lia.
      * intros j c' Hj Hc'. apply (Hbefore (S j) c'); [lia | exact Hc'].
Qed.

Lemma first_own_window_passes (location_origin : string)
    (clientList : list WindowClient) (k i : nat) (client : WindowClient) :
  first_own_window location_origin clientList k = Some (i, client) ->
  own_window location_origin client = true /\ In client clientList.
Proof.
  revert k. induction clientList as [|c l IH]; intros k H; [discriminate|].
  simpl in H. destruct (own_window location_origin c) eqn:E.
  - injection H as <- <-. split; [exact E | now left].
  - destruct (IH _ H) as [Ho Hin]. split; [exact Ho | now right].
Qed.

(** X14.  A click closes the notification first and then brings at most
    one window in front of the user: it never focuses two clients and never
    both focuses a client and opens a window; with the action [close] it
    does nothing but close the notification. *)
Theorem click_raises_at_most_one_window
    (location_origin : string) (clients_openWindow : bool) (event_action : string)
    (data : JsValue) (clientList : list WindowClient) :
  List.hd_error
    (on_notificationclick location_origin clients_openWindow event_action data
       clientList)
  = Some NotificationClose
  /\ (length
        (List.filter raises_window
           (on_notificationclick location_origin clients_openWindow event_action
              data clientList)) <= 1)%nat
  /\ (event_action = "close" ->
      on_notificationclick location_origin clients_openWindow event_action data
        clientList
      = [NotificationClose]).
Proof.
  unfold on_notificationclick. split; [reflexivity|]. split.
  - destruct (String.eqb event_action "close"); simpl; [lia|].
    destruct (first_own_window location_origin clientList 0) as [[i c]|].
    + destruct (truthy (optional_prop data "url")); simpl; [|lia].
      destruct (has_navigate c); simpl; lia.
    + destruct clients_openWindow; simpl; lia.
  - intros ->. reflexivity.
Qed.

(** X15.  Among the open windows, the one focused is the first in the list
    whose URL starts with the worker's origin (and that can be focused), and
    then no window is opened.  It is sent to the target only if the
    notification carried a URL: by [navigate] where the client has it, by an
    assignment to its [url] otherwise. *)
Theorem click_focuses_first_own_window
    (location_origin : string) (clients_openWindow : bool) (event_action : string)
    (data : JsValue) (clientList : list WindowClient)
    (i : nat) (client : WindowClient) :
  event_action <> "close" ->
  nth_error clientList i = Some client ->
  own_window location_origin client = true ->
  (forall j c, (j < i)%nat -> nth_error clientList j = Some c ->
               own_window location_origin c = false) ->
  on_notificationclick location_origin clients_openWindow event_action data
    clientList
  = NotificationClose :: ClientFocus i ::
    (if truthy (optional_prop data "url") then
       [if has_navigate client
        then ClientNavigate i (optional_prop data "url")
        else ClientUrlAssign i (optional_prop data "url")]
     else []).
Proof.
  intros Hact Hnth Hown Hbefore. unfold on_notificationclick.
  apply String.eqb_neq in Hact. rewrite Hact.
  rewrite (first_own_window_found location_origin clientList 0 i client
             Hnth Hown Hbefore). simpl.
  destruct (truthy (optional_prop data "url")) eqn:Et; [|reflexivity].
  unfold js_or. rewrite Et. reflexivity.
Qed.

(** The handler when the loop finds no client. *)
Lemma click_none_open
    (location_origin : string) (clients_openWindow : bool) (event_action : string)
    (data : JsValue) (clientList : list WindowClient) :
  event_action <> "close" ->
  (forall c, In c clientList -> own_window location_origin c = false) ->
  on_notificationclick location_origin clients_openWindow event_action data
    clientList
  = NotificationClose ::
    (if clients_openWindow
     then [OpenWindow (js_or (optional_prop data "url")
                         (JStr (location_origin ++ "/#/")))]
     else []).
Proof.
  intros Hact Hnone. unfold on_notificationclick.
  apply String.eqb_neq in Hact. rewrite Hact.
  now rewrite (first_own_window_none location_origin clientList 0 Hnone).
Qed.

(** X16.  When no open window belongs to the worker's origin, the handler
    goes by [clients.openWindow]: where it is defined, one window is opened,
    at the URL the notification carried or, when it carried none, at the
    root of the application, [origin + '/#/']; where it is not, nothing
    happens after the notification is closed. *)
Theorem click_opens_window_when_none_open
    (location_origin : string) (clients_openWindow : bool) (event_action : string)
    (data : JsValue) (clientList : list WindowClient) :
  event_action <> "close" ->
  (forall c, In c clientList -> own_window location_origin c = false) ->
  on_notificationclick location_origin clients_openWindow event_action data
    clientList
  = NotificationClose ::
    (if clients_openWindow
     then [OpenWindow
             (if truthy (optional_prop data "url") then optional_prop data "url"
              else JStr (location_origin ++ "/#/"))]
     else []).
Proof.
  intros Hact Hnone. now rewrite (click_none_open _ _ _ _ _ Hact Hnone).
Qed.

(** X17.  Without a URL in the notification's data, whether the data is
    missing, [null], not an object, or an object with an empty or missing
    [url], a click never navigates a client nor assigns to its [url]. *)
Theorem click_redirects_only_to_carried_url
    (location_origin : string) (clients_openWindow : bool) (event_action : string)
    (data : JsValue) (clientList : list WindowClient) :
  truthy (optional_prop data "url") = false ->
  List.filter redirects
    (on_notificationclick location_origin clients_openWindow event_action data
       clientList)
  = [].
Proof.
  intros Hurl. unfold on_notificationclick.
  destruct (String.eqb event_action "close"); [reflexivity|].
  destruct (first_own_window location_origin clientList 0) as [[i c]|].
  - now rewrite Hurl.
  - destruct clients_openWindow; reflexivity.
Qed.

(** X18.  From push to click, with no window of the application open
    and an action other than [close]: where [clients.openWindow] is
    defined, a push whose payload is an object holding, under [data], an
    object with a non-empty string under [url] leads to a window opened at
    that URL, and a push without payload to a window opened at the root of
    the application; where it is not defined, no window is opened. *)
Theorem push_then_click_opens_target
    (now : Z) (location_origin : string) (clients_openWindow : bool)
    (event_action : string) (clientList : list WindowClient)
    (payload : string) (fs dfs : list (string * JsValue)) (u : string) :
  event_action <> "close" ->
  (forall c, In c clientList -> own_window location_origin c = false) ->
  JSON_parse payload = Some (JObj fs) ->
  field "data" fs = JObj dfs ->
  field "url" dfs = JStr u ->
  u <> EmptyString ->
  on_notificationclick location_origin clients_openWindow event_action
    (notification_data (o_data (shown_options (on_push now (Some payload)))))
    clientList
  = NotificationClose ::
    (if clients_openWindow then [OpenWindow (JStr u)] else [])
  /\ on_notificationclick location_origin clients_openWindow event_action
       (notification_data (o_data (shown_options (on_push now None))))
       clientList
     = NotificationClose ::
       (if clients_openWindow
        then [OpenWindow (JStr (location_origin ++ "/#/"))] else []).
Proof.
  intros Hact Hnone Hp Hd Hu Hne. split.
  - rewrite (click_none_open _ _ _ _ _ Hact Hnone).
    unfold on_push, notification_of. rewrite (decode_object _ _ Hp).
    cbn [shown_options o_data data]. rewrite Hd.
    unfold js_or. cbn [truthy notification_data optional_prop prop].
    rewrite Hu, (truthy_text _ Hne). reflexivity.
  - now rewrite (click_none_open _ _ _ _ _ Hact Hnone).
Qed.

End ClickFacts.

(* ===================================================================== *)
(** ** Replays of the queue *)
(* ===================================================================== *)

Section ReplayFacts.
Import Worker.

Implicit Types (store : gmap string Favorite) (f : Favorite).

(** The store a replay leaves, for a store that keeps its records under
    their own ids. *)
Lemma replayed_store store :
  inline_keys store ->
  queue_after (on_sync "sync-stories" (Some store)) = Some (mark_synced <$> store).
Proof.
  intros Hkeys. unfold on_sync, syncStories. simpl.
  destruct (List.filter (fun f => negb (synced f)) (getAll store))
    as [|g rest] eqn:E; simpl; f_equal;
    rewrite <- (replay_marks_all _ Hkeys), E; reflexivity.
Qed.

Lemma replayed_puts store :
  puts_issued (on_sync "sync-stories" (Some store))
  = List.map mark_synced (List.filter (fun f => negb (synced f)) (getAll store)).
Proof.
  unfold on_sync, syncStories. simpl.
  destruct (List.filter (fun f => negb (synced f)) (getAll store)); reflexivity.
Qed.

Lemma inline_keys_marked store : inline_keys store -> inline_keys (mark_synced <$> store).
Proof.
  intros Hkeys k f Hk. rewrite lookup_fmap in Hk.
  destruct (store !! k) as [g|] eqn:Eg; [|discriminate].
  injection Hk as <-. exact (Hkeys _ _ Eg).
Qed.

(** X19.  A replay is idempotent: run again on the queue it left, it
    resolves, issues no put and leaves the queue as it is. *)
Theorem replay_twice_writes_once store :
  inline_keys store ->
  on_sync "sync-stories" (queue_after (on_sync "sync-stories" (Some store)))
  = {| waitUntil := Some (Resolved tt);
       queue_after := queue_after (on_sync "sync-stories" (Some store));
       puts_issued := [] |}.
Proof.
  intros Hkeys. rewrite (replayed_store _ Hkeys).
  unfold on_sync, syncStories. simpl.
  rewrite nothing_unsynced; [reflexivity|].
  intros k f Hk. rewrite lookup_fmap in Hk.
  destruct (store !! k); [|discriminate]. now injection Hk as <-.
Qed.

(** X20.  A replay neither adds nor deletes a record, and the queue it
    leaves still keeps every record under the key the record carries. *)
Theorem replay_keeps_keys store :
  inline_keys store ->
  exists store',
    queue_after (on_sync "sync-stories" (Some store)) = Some store'
    /\ dom store' = dom store
    /\ inline_keys store'.
Proof.
  intros Hkeys. exists (mark_synced <$> store).
  split; [now apply replayed_store|].
  split; [apply dom_fmap_L | now apply inline_keys_marked].
Qed.

(** X21.  Each unsynced record is written exactly once and no other record
    is written: the ids of the puts are distinct, every put is a record of
    the queue that was unsynced, with its story unchanged and its flag set,
    and every unsynced record of the queue is among the puts. *)
Theorem replay_writes_each_unsynced_once store :
  inline_keys store ->
  List.NoDup (List.map id (puts_issued (on_sync "sync-stories" (Some store))))
  /\ (forall p, In p (puts_issued (on_sync "sync-stories" (Some store))) ->
        synced p = true
        /\ exists f, store !! id p = Some f /\ synced f = false
                     /\ story p = story f)
  /\ (forall k f, store !! k = Some f -> synced f = false ->
        In (mark_synced f) (puts_issued (on_sync "sync-stories" (Some store)))).
Proof.
  intros Hkeys. rewrite replayed_puts. split; [|split].
  - apply NoDup_ListNoDup. now apply unsynced_ids_nodup.
  - intros p Hp. apply List.in_map_iff in Hp as (f & <- & Hf).
    apply List.filter_In in Hf as [Hf Hs]. apply negb_true_iff in Hs.
    apply in_getAll in Hf as (k & Hk).
    split; [reflexivity|]. exists f. rewrite id_mark_synced, (Hkeys _ _ Hk).
    now repeat split.
  - intros k f Hk Hs. apply List.in_map. apply List.filter_In. split.
    + apply in_getAll. now exists k.
    + now rewrite Hs.
Qed.

End ReplayFacts.

(* ===================================================================== *)
(** ** Network use *)
(* ===================================================================== *)

Section NetworkUse.
Import Json Http CacheStorage Worker.

(** X22.  One fetch event makes at most one network call, for the request
    itself.  An API request always makes it, cached or not; any other
    request makes it exactly when no cache holds the request. *)
Theorem fetch_network_use (net : Network) (cs : Caches) (request : Request) :
  method request = "GET" ->
  (origin (url request) = API_ORIGIN ->
     network_calls (on_fetch net cs request) = [request])
  /\ (origin (url request) <> API_ORIGIN ->
      network_calls (on_fetch net cs request)
      = match caches_match cs request with
        | Some _ => []
        | None => [request]
        end).
Proof.
  intros Hm. split; intros Ho.
  - rewrite (on_fetch_api net cs request Hm Ho). now destruct (net request).
  - rewrite (on_fetch_static net cs request Hm Ho).
    destruct (caches_match cs request); [reflexivity|]. now destruct (net request).
Qed.

End NetworkUse.

(* ===================================================================== *)
(** ** Further instances *)
(* ===================================================================== *)

Section MoreInstances.
Import Json Http CacheStorage Worker Samples.

Lemma favorites_inline_keys : inline_keys favorites.
Proof.
  intros k f H. unfold favorites in H.
  repeat (apply lookup_insert_Some in H as [[<- <-]|[_ H]]; [reflexivity|]).
  rewrite lookup_empty in H. discriminate.
Defined.

Lemma serving_serves (req : Request) : served serving roomy req.
Proof. exists stylesheet. repeat split. vm_compute. discriminate. Defined.

(** The records are read, and so written back, in the order of their
    keys. *)
Example replay_in_key_order :
  List.map id (getAll favorites) = ["story-1"; "story-2"; "story-3"]
  /\ List.map id (puts_issued (on_sync "sync-stories" (Some favorites)))
     = ["story-2"; "story-3"].
Proof. vm_compute. split; reflexivity. Qed.

(** After an install, the activation and one visit online, the story list
    is answered offline from the dynamic cache. *)
Lemma api_failure_serves_dynamic_entry_witness :
  respondWith (on_fetch offline visited api_request) = Some (Resolved stories)
  /\ fetch_caches (on_fetch offline visited api_request) = visited
  /\ network_calls (on_fetch offline visited api_request) = [api_request].
Proof.
  apply (api_failure_serves_dynamic_entry "https://storymap.example");
    try reflexivity.
  - intros path Hin. simpl in Hin.
    repeat (destruct Hin as [<-|Hin]; [vm_compute; discriminate|]).
    destruct Hin.
  - unfold visited. apply reach_fetch, reach_activate, reach_install, reach_empty.
Defined.

Lemma fetch_keeps_other_entries_witness :
  cache_match
    (entries (fetch_caches (on_fetch (answering stories) warm api_request))
       STATIC_CACHE) page_request
  = Some stylesheet
  /\ has (fetch_caches (on_fetch (answering stories) warm api_request))
       STATIC_CACHE = true.
Proof.
  destruct (fetch_keeps_other_entries (answering stories) warm api_request
              page_request STATIC_CACHE) as [Hm Hh].
  - vm_compute. discriminate.
  - split; [rewrite Hm; reflexivity | apply Hh; reflexivity].
Defined.

Lemma fetch_writes_to_its_route_witness :
  entries (fetch_caches (on_fetch (answering stories) warm api_request))
    STATIC_CACHE
  = entries warm STATIC_CACHE
  /\ entries (fetch_caches (on_fetch (answering stylesheet) [] page_request))
       DYNAMIC_CACHE
     = [].
Proof.
  destruct (fetch_writes_to_its_route (answering stories) warm api_request
              STATIC_CACHE) as (Hapi & _ & _).
  destruct (fetch_writes_to_its_route (answering stylesheet) [] page_request
              DYNAMIC_CACHE) as (_ & Hstatic & _).
  split.
  - apply Hapi; [reflexivity | vm_compute; discriminate].
  - apply Hstatic; vm_compute; discriminate.
Defined.

Lemma fetch_answers_exactly_get_witness :
  respondWith (on_fetch offline [] api_request) <> None
  /\ network_calls
       (on_fetch (answering stories) warm
          {| method := "DELETE"; url := url api_request |}) = [].
Proof.
  destruct (fetch_answers_exactly_get offline [] api_request) as (Hget & _).
  destruct (fetch_answers_exactly_get (answering stories) warm
              {| method := "DELETE"; url := url api_request |}) as (_ & Hother).
  split.
  - apply Hget. reflexivity.
  - apply Hother. vm_compute. discriminate.
Defined.



Lemma static_invalid_answer_is_refetched_witness :
  respondWith
    (on_fetch (answering stylesheet)
       (fetch_caches (on_fetch (answering missing_page) [] page_request))
       page_request)
  = Some (Resolved stylesheet)
  /\ network_calls
       (on_fetch (answering stylesheet)
          (fetch_caches (on_fetch (answering missing_page) [] page_request))
          page_request)
     = [page_request].
Proof.
  apply (static_invalid_answer_is_refetched (answering missing_page)
           (answering stylesheet) [] page_request missing_page stylesheet);
    try reflexivity.
  - vm_compute. discriminate.
  - left. vm_compute. discriminate.
Defined.

Lemma install_keeps_other_caches_witness :
  entries
    (install_caches (on_install script_missing roomy "https://storymap.example" warm))
    DYNAMIC_CACHE
  = [(url api_request, older_stories)]
  /\ has
       (install_caches (on_install serving roomy "https://storymap.example" warm))
       DYNAMIC_CACHE = true.
Proof.
  destruct (install_keeps_other_caches script_missing roomy "https://storymap.example"
              warm DYNAMIC_CACHE) as (Hentries & _).
  destruct (install_keeps_other_caches serving roomy "https://storymap.example"
              warm DYNAMIC_CACHE) as (_ & Hhas).
  split.
  - rewrite Hentries; [reflexivity | vm_compute; discriminate].
  - apply Hhas. reflexivity.
Defined.

Lemma installed_shell_served_offline_witness :
  exists r,
    serving (asset_request "https://storymap.example" "/index.html") = Some r
    /\ respondWith
         (on_fetch offline
            (on_activate
               (install_caches (on_install serving roomy "https://storymap.example"
                                  two_versions)))
            (asset_request "https://storymap.example" "/index.html"))
       = Some (Resolved r)
    /\ network_calls
         (on_fetch offline
            (on_activate
               (install_caches (on_install serving roomy "https://storymap.example"
                                  two_versions)))
            (asset_request "https://storymap.example" "/index.html"))
       = [].
Proof.
  apply (installed_shell_served_offline serving offline roomy "https://storymap.example"
           two_versions "/index.html").
  - intros p _. apply serving_serves.
  - vm_compute. tauto.
  - vm_compute. discriminate.
  - repeat constructor; simpl; intros H; try reflexivity; discriminate H.
Defined.

Lemma activation_drops_old_answers_witness :
  caches_match old_only api_request = Some older_stories
  /\ respondWith (on_fetch offline (on_activate old_only) api_request)
     = Some (Resolved offline_response).
Proof.
  split; [reflexivity|].
  apply (activation_drops_old_answers offline old_only api_request);
    try reflexivity.
  repeat constructor; simpl; intros [H|H]; try reflexivity; discriminate H.
Defined.

Lemma activation_leaves_at_most_two_witness :
  keys (on_activate two_versions) = [STATIC_CACHE; DYNAMIC_CACHE]
  /\ (length (on_activate two_versions) <= 2)%nat.
Proof.
  destruct (activation_leaves_at_most_two two_versions) as [Hk Hl].
  split; [rewrite Hk; reflexivity|]. apply Hl.
  repeat constructor; simpl; intros H;
    repeat (destruct H as [H|H]; [discriminate H|]); exact H.
Defined.

Lemma push_plain_json_uses_defaults_witness :
  JSON_parse quoted_push = Some (JStr "Halo dunia")
  /\ o_body (shown_options (on_push 0 (Some quoted_push)))
     = JStr "Ada cerita baru yang ditambahkan!".
Proof.
  split; [vm_compute; reflexivity|].
  apply (push_plain_json_uses_defaults 0 quoted_push (JStr "Halo dunia"));
    vm_compute; reflexivity.
Defined.

Lemma push_null_json_is_text_witness :
  o_body (shown_options (on_push 0 (Some " null "))) = JStr " null ".
Proof.
  apply (push_null_json_is_text 0 " null "). vm_compute. reflexivity.
Defined.

Lemma click_raises_at_most_one_window_witness :
  on_notificationclick "https://storymap.example" true "close"
    (JObj [("url", JStr "https://storymap.example/#/stories/1")]) windows
  = [NotificationClose].
Proof.
  destruct (click_raises_at_most_one_window "https://storymap.example" true
              "close"
              (JObj [("url", JStr "https://storymap.example/#/stories/1")])
              windows) as (_ & _ & Hclose).
  apply Hclose. reflexivity.
Defined.

Lemma click_focuses_first_own_window_witness :
  on_notificationclick "https://storymap.example" true "view"
    (JObj [("url", JStr "https://storymap.example/#/stories/1")]) windows
  = [NotificationClose; ClientFocus 1;
     ClientNavigate 1 (JStr "https://storymap.example/#/stories/1")]
  /\ on_notificationclick "https://storymap.example" true EmptyString JNull windows
     = [NotificationClose; ClientFocus 1].
Proof.
  split.
  - apply (click_focuses_first_own_window "https://storymap.example" true "view"
             (JObj [("url", JStr "https://storymap.example/#/stories/1")]) windows
             1 {| client_url := "https://storymap.example/#/add";
                  has_focus := true; has_navigate := true |});
      try reflexivity; [discriminate|].
    intros j c Hj Hc. destruct j as [|j]; [|lia].
    injection Hc as <-. reflexivity.
  - apply (click_focuses_first_own_window "https://storymap.example" true
             EmptyString JNull windows
             1 {| client_url := "https://storymap.example/#/add";
                  has_focus := true; has_navigate := true |});
      try reflexivity; [discriminate|].
    intros j c Hj Hc. destruct j as [|j]; [|lia].
    injection Hc as <-. reflexivity.
Defined.

Lemma click_opens_window_when_none_open_witness :
  on_notificationclick "https://storymap.example" true "view" (JObj []) []
  = [NotificationClose; OpenWindow (JStr "https://storymap.example/#/")]
  /\ on_notificationclick "https://storymap.example" false "view" (JObj []) []
     = [NotificationClose].
Proof.
  split.
  - apply (click_opens_window_when_none_open "https://storymap.example" true
             "view" (JObj []) []); [discriminate | intros c []].
  - apply (click_opens_window_when_none_open "https://storymap.example" false
             "view" (JObj []) []); [discriminate | intros c []].
Defined.

Lemma click_redirects_only_to_carried_url_witness :
  List.filter redirects
    (on_notificationclick "https://storymap.example" true "view"
       (JObj [("url", JStr EmptyString)]) windows)
  = [].
Proof.
  apply (click_redirects_only_to_carried_url "https://storymap.example" true
           "view" (JObj [("url", JStr EmptyString)]) windows).
  reflexivity.
Defined.

Lemma push_then_click_opens_target_witness :
  on_notificationclick "https://storymap.example" true "view"
    (notification_data (o_data (shown_options (on_push 0 (Some linked_push)))))
    []
  = [NotificationClose; OpenWindow (JStr "https://storymap.example/#/stories/1")]
  /\ on_notificationclick "https://storymap.example" true "view"
       (notification_data (o_data (shown_options (on_push 0 None)))) []
     = [NotificationClose; OpenWindow (JStr "https://storymap.example/#/")].
Proof.
  apply (push_then_click_opens_target 0 "https://storymap.example" true "view" []
           linked_push
           [("title", JStr "T"); ("body", JStr "B");
            ("data", JObj [("url", JStr "https://storymap.example/#/stories/1")])]
           [("url", JStr "https://storymap.example/#/stories/1")]
           "https://storymap.example/#/stories/1");
    try (vm_compute; reflexivity); try discriminate.
  intros c [].
Defined.

Lemma replay_twice_writes_once_witness :
  on_sync "sync-stories" (queue_after (on_sync "sync-stories" (Some favorites)))
  = {| waitUntil := Some (Resolved tt);
       queue_after := queue_after (on_sync "sync-stories" (Some favorites));
       puts_issued := [] |}.
Proof. apply (replay_twice_writes_once favorites favorites_inline_keys). Defined.

Lemma replay_keeps_keys_witness :
  exists store',
    queue_after (on_sync "sync-stories" (Some favorites)) = Some store'
    /\ dom store' = dom favorites
    /\ inline_keys store'.
Proof. apply (replay_keeps_keys favorites favorites_inline_keys). Defined.

Lemma replay_writes_each_unsynced_once_witness :
  In {| id := "story-2"; story := "Gunung"; synced := true |}
    (puts_issued (on_sync "sync-stories" (Some favorites)))
  /\ List.NoDup
       (List.map id (puts_issued (on_sync "sync-stories" (Some favorites)))).
Proof.
  destruct (replay_writes_each_unsynced_once favorites favorites_inline_keys)
    as (Hnd & _ & Hall).
  split; [|exact Hnd].
  apply (Hall "story-2" {| id := "story-2"; story := "Gunung"; synced := false |});
    reflexivity.
Defined.

Lemma fetch_network_use_witness :
  network_calls (on_fetch (answering stories) warm api_request) = [api_request]
  /\ network_calls (on_fetch (answering stylesheet) warm page_request) = [].
Proof.
  destruct (fetch_network_use (answering stories) warm api_request eq_refl)
    as [Hapi _].
  destruct (fetch_network_use (answering stylesheet) warm page_request eq_refl)
    as [_ Hstatic].
  split; [apply Hapi; reflexivity|].
  rewrite Hstatic; [reflexivity | vm_compute; discriminate].
Defined.

End MoreInstances.
